(** * The entity schema layer of [app/models.py]

    The module is a list of SQLModel class declarations: five string
    enumerations, eight table models and nine request schemas.  Each class is
    embedded as the list of its [Field] descriptors, in source order, and the
    constraints the descriptors declare ([max_length], [ge], [le], defaults,
    [Optional], [foreign_key], [primary_key]) are given their validation
    meaning by one interpreter, [validate]; [instantiate] is what calling
    the class does, which validates for a schema and not for a table model.

    Part I is the embedding, Part II the notions the statements use,
    Part III the records of the scenarios, Part IV the facts and theorems,
    Part V further properties of the declarations. *)

From Stdlib Require Import ZArith QArith Qpower Lia.
From stdpp Require Import gmap strings list fin_maps.

Local Open Scope Z_scope.

(** * Part I: the embedding *)

(** ** [decimal.Decimal]

    A finite decimal is a coefficient and an exponent, [coefficient * 10 ^
    exponent]; [Decimal("1.0")] is [10] and [-1].  Comparison brings both
    operands to the smaller exponent, as the decimal module does.  The
    special values (NaN, the infinities) are not values of a validated
    decimal field and are not represented. *)

Module Dec.

Record Decimal : Type := mk { coefficient : Z; exponent : Z }.

Definition of_int (n : Z) : Decimal := mk n 0.

Definition rescale (d : Decimal) (e : Z) : Z :=
  coefficient d * 10 ^ (exponent d - e).

Definition compare (a b : Decimal) : comparison :=
  let e := Z.min (exponent a) (exponent b) in
  rescale a e ?= rescale b e.

Definition leb (a b : Decimal) : bool :=
  match compare a b with Gt => false | _ => true end.

(** The rational number a decimal denotes. *)
Definition value (d : Decimal) : Q :=
  (inject_Z (coefficient d) * inject_Z 10 ^ exponent d)%Q.

End Dec.

Abbreviation Decimal := Dec.Decimal.

Local Open Scope string_scope.

(** ** Python values

    The values a keyword argument of a model constructor can take.  A [str]
    is represented by its UTF-8 encoding, one [ascii] per byte.  A member
    of a [(str, Enum)] class is a [str] equal to its value
    ([MissionStatus.PENDING == "pending"]), so it is represented by that
    string.  A [datetime] is a point on the time line.  A [dict] keeps its
    insertion order; its keys are strings.  [VDec] holds the finite
    decimals; the other values of [Decimal] are [VNonFinite]. *)

(** [Decimal("Infinity")], [Decimal("-Infinity")], [Decimal("NaN")]. *)
Inductive nonfinite : Type := Infinity | NegInfinity | NaN.

#[warnings="-register-all"] Inductive value : Type :=
  | VNone
  | VBool (b : bool)
  | VInt (n : Z)
  | VDec (d : Decimal)
  | VStr (s : string)
  | VDatetime (t : Z)
  | VList (l : list value)
  | VDict (m : list (string * value))
  | VNonFinite (x : nonfinite).

(** [len(s)]: the number of code points of the string, that is, of the
    bytes of its encoding that do not continue a character (the
    continuation bytes are those of the form [10xxxxxx]). *)
Fixpoint code_points (s : string) : nat :=
  match s with
  | EmptyString => 0
  | String (Ascii.Ascii _ _ _ _ _ _ b6 b7) s' =>
      ((if b7 && negb b6 then 0 else 1) + code_points s')%nat
  end.

(** An instance, a validated set of keyword arguments or a stored row:
    attribute name to value. *)
Abbreviation attrs := (gmap string value).

(** ** Enumerations *)

Record EnumDecl : Type := { ename : string; members : list (string * string) }.

Definition member_values (e : EnumDecl) : list string := (members e).*2.

Definition GlyphCategory : EnumDecl :=
  {| ename := "GlyphCategory";
     members := [("PROTECTION", "protection");
                 ("TRANSFORMATION", "transformation");
                 ("HEALING", "healing");
                 ("COMMUNICATION", "communication");
                 ("ENERGY", "energy")] |}.

Definition MissionStatus : EnumDecl :=
  {| ename := "MissionStatus";
     members := [("PENDING", "pending");
                 ("ACTIVE", "active");
                 ("COMPLETED", "completed");
                 ("FAILED", "failed");
                 ("SUSPENDED", "suspended")] |}.

Definition MissionPriority : EnumDecl :=
  {| ename := "MissionPriority";
     members := [("LOW", "low");
                 ("MEDIUM", "medium");
                 ("HIGH", "high");
                 ("CRITICAL", "critical")] |}.

Definition EmotionalState : EnumDecl :=
  {| ename := "EmotionalState";
     members := [("HARMONIOUS", "harmonious");
                 ("TURBULENT", "turbulent");
                 ("RESONANT", "resonant");
                 ("CHAOTIC", "chaotic");
                 ("SERENE", "serene")] |}.

Definition ShieldStatus : EnumDecl :=
  {| ename := "ShieldStatus";
     members := [("OPTIMAL", "optimal");
                 ("DEGRADED", "degraded");
                 ("CRITICAL", "critical");
                 ("OFFLINE", "offline");
                 ("REGENERATING", "regenerating")] |}.

(** ** Field descriptors *)

Inductive pytype : Type :=
  | TInt                       (* int *)
  | TStr                       (* str *)
  | TBool                      (* bool *)
  | TDecimal                   (* Decimal *)
  | TDatetime                  (* datetime *)
  | TEnum (e : EnumDecl)       (* one of the enumerations above *)
  | TListStr                   (* List[str] *)
  | TDictAny                   (* Dict[str, Any] *)
  | TDictDecimal.              (* Dict[str, Decimal] *)

Inductive default_spec : Type :=
  | Required                   (* Field(...) without default *)
  | Default (v : value)        (* default=v *)
  | DefaultFactoryUtcnow.      (* default_factory=datetime.utcnow *)

Record FieldInfo : Type := {
  fname : string;
  annotation : pytype;
  optional : bool;                          (* Optional[annotation] *)
  default : default_spec;
  max_length : option nat;
  ge : option Z;
  le : option Z;
  primary_key : bool;
  foreign_key : option (string * string);   (* "table.column" *)
  sa_column_json : bool                     (* sa_column=Column(JSON) *)
}.

(** [name: t] with a bare [Field()], and the keyword arguments of [Field]. *)
Definition field (n : string) (t : pytype) : FieldInfo :=
  {| fname := n; annotation := t; optional := false; default := Required;
     max_length := None; ge := None; le := None; primary_key := false;
     foreign_key := None; sa_column_json := false |}.

Definition Optional (f : FieldInfo) : FieldInfo :=
  {| fname := fname f; annotation := annotation f; optional := true;
     default := default f; max_length := max_length f; ge := ge f; le := le f;
     primary_key := primary_key f; foreign_key := foreign_key f;
     sa_column_json := sa_column_json f |}.

Definition with_default (d : default_spec) (f : FieldInfo) : FieldInfo :=
  {| fname := fname f; annotation := annotation f; optional := optional f;
     default := d; max_length := max_length f; ge := ge f; le := le f;
     primary_key := primary_key f; foreign_key := foreign_key f;
     sa_column_json := sa_column_json f |}.

Definition with_max_length (n : nat) (f : FieldInfo) : FieldInfo :=
  {| fname := fname f; annotation := annotation f; optional := optional f;
     default := default f; max_length := Some n; ge := ge f; le := le f;
     primary_key := primary_key f; foreign_key := foreign_key f;
     sa_column_json := sa_column_json f |}.

Definition with_ge (z : Z) (f : FieldInfo) : FieldInfo :=
  {| fname := fname f; annotation := annotation f; optional := optional f;
     default := default f; max_length := max_length f; ge := Some z; le := le f;
     primary_key := primary_key f; foreign_key := foreign_key f;
     sa_column_json := sa_column_json f |}.

Definition with_le (z : Z) (f : FieldInfo) : FieldInfo :=
  {| fname := fname f; annotation := annotation f; optional := optional f;
     default := default f; max_length := max_length f; ge := ge f; le := Some z;
     primary_key := primary_key f; foreign_key := foreign_key f;
     sa_column_json := sa_column_json f |}.

Definition with_primary_key (f : FieldInfo) : FieldInfo :=
  {| fname := fname f; annotation := annotation f; optional := optional f;
     default := default f; max_length := max_length f; ge := ge f; le := le f;
     primary_key := true; foreign_key := foreign_key f;
     sa_column_json := sa_column_json f |}.

Definition with_foreign_key (t c : string) (f : FieldInfo) : FieldInfo :=
  {| fname := fname f; annotation := annotation f; optional := optional f;
     default := default f; max_length := max_length f; ge := ge f; le := le f;
     primary_key := primary_key f; foreign_key := Some (t, c);
     sa_column_json := sa_column_json f |}.

Definition with_json_column (f : FieldInfo) : FieldInfo :=
  {| fname := fname f; annotation := annotation f; optional := optional f;
     default := default f; max_length := max_length f; ge := ge f; le := le f;
     primary_key := primary_key f; foreign_key := foreign_key f;
     sa_column_json := true |}.

(** [f |> k] reads as one more keyword argument of [Field]. *)
Notation "f |> k" := (k f) (at level 45, left associativity, only parsing).

(** [Decimal("c.f")] literals used as defaults. *)
Definition dec (c e : Z) : value := VDec (Dec.mk c e).

Definition default_ (v : value) : FieldInfo -> FieldInfo :=
  with_default (Default v).

Definition default_factory_utcnow : FieldInfo -> FieldInfo :=
  with_default DefaultFactoryUtcnow.

(** ** Models

    A class is its name, its table name when declared with [table=True], its
    fields in source order and its [Relationship] attributes (attribute,
    target class), which are not columns and take no part in validation. *)

Record Model : Type := {
  mname : string;
  tablename : option string;
  fields : list FieldInfo;
  relationships : list (string * string)
}.

Definition field_names (m : Model) : list string := fname <$> fields m.

(** *** Persistent models *)

Definition Glyph : Model :=
  {| mname := "Glyph"; tablename := Some "glyphs";
     fields := [
       field "id" TInt |> Optional |> default_ VNone |> with_primary_key;
       field "name" TStr |> with_max_length 100;
       field "symbol" TStr |> with_max_length 10;
       field "category" (TEnum GlyphCategory) |> default_ (VStr "energy");
       field "power_level" TDecimal |> default_ (dec 10 (-1))
         |> with_ge 0 |> with_le 100;
       field "description" TStr |> default_ (VStr "") |> with_max_length 1000;
       field "properties" TDictAny |> default_ (VDict []) |> with_json_column;
       field "is_active" TBool |> default_ (VBool true);
       field "discovered_at" TDatetime |> default_factory_utcnow;
       field "last_used" TDatetime |> Optional |> default_ VNone ];
     relationships := [("transformation_steps", "TransformationStep")] |}.

Definition TransformationProtocol : Model :=
  {| mname := "TransformationProtocol";
     tablename := Some "transformation_protocols";
     fields := [
       field "id" TInt |> Optional |> default_ VNone |> with_primary_key;
       field "name" TStr |> with_max_length 150;
       field "description" TStr |> default_ (VStr "") |> with_max_length 2000;
       field "duration_minutes" TInt |> default_ (VInt 60) |> with_ge 1;
       field "energy_cost" TDecimal |> default_ (dec 100 (-1)) |> with_ge 0;
       field "success_rate" TDecimal |> default_ (dec 850 (-1))
         |> with_ge 0 |> with_le 100;
       field "requirements" TListStr |> default_ (VList []) |> with_json_column;
       field "effects" TDictAny |> default_ (VDict []) |> with_json_column;
       field "is_active" TBool |> default_ (VBool true);
       field "created_at" TDatetime |> default_factory_utcnow;
       field "last_modified" TDatetime |> default_factory_utcnow ];
     relationships := [("steps", "TransformationStep"); ("missions", "Mission")] |}.

Definition TransformationStep : Model :=
  {| mname := "TransformationStep"; tablename := Some "transformation_steps";
     fields := [
       field "id" TInt |> Optional |> default_ VNone |> with_primary_key;
       field "protocol_id" TInt
         |> with_foreign_key "transformation_protocols" "id";
       field "glyph_id" TInt |> Optional |> default_ VNone
         |> with_foreign_key "glyphs" "id";
       field "step_order" TInt |> with_ge 1;
       field "instruction" TStr |> with_max_length 500;
       field "duration_seconds" TInt |> default_ (VInt 300) |> with_ge 1;
       field "parameters" TDictAny |> default_ (VDict []) |> with_json_column ];
     relationships := [("protocol", "TransformationProtocol"); ("glyph", "Glyph")] |}.

Definition Mission : Model :=
  {| mname := "Mission"; tablename := Some "missions";
     fields := [
       field "id" TInt |> Optional |> default_ VNone |> with_primary_key;
       field "title" TStr |> with_max_length 200;
       field "description" TStr |> default_ (VStr "") |> with_max_length 2000;
       field "status" (TEnum MissionStatus) |> default_ (VStr "pending");
       field "priority" (TEnum MissionPriority) |> default_ (VStr "medium");
       field "protocol_id" TInt |> Optional |> default_ VNone
         |> with_foreign_key "transformation_protocols" "id";
       field "assigned_entity" TStr |> default_ (VStr "") |> with_max_length 100;
       field "target_location" TStr |> default_ (VStr "") |> with_max_length 200;
       field "objectives" TListStr |> default_ (VList []) |> with_json_column;
       field "progress_percentage" TDecimal |> default_ (dec 0 (-1))
         |> with_ge 0 |> with_le 100;
       field "estimated_completion" TDatetime |> Optional |> default_ VNone;
       field "actual_completion" TDatetime |> Optional |> default_ VNone;
       field "created_at" TDatetime |> default_factory_utcnow;
       field "started_at" TDatetime |> Optional |> default_ VNone;
       field "mission_metadata" TDictAny |> default_ (VDict [])
         |> with_json_column ];
     relationships := [("protocol", "TransformationProtocol");
                       ("log_entries", "MissionLogEntry")] |}.

Definition MissionLogEntry : Model :=
  {| mname := "MissionLogEntry"; tablename := Some "mission_log_entries";
     fields := [
       field "id" TInt |> Optional |> default_ VNone |> with_primary_key;
       field "mission_id" TInt |> with_foreign_key "missions" "id";
       field "entry_type" TStr |> default_ (VStr "update") |> with_max_length 50;
       field "message" TStr |> with_max_length 1000;
       field "progress_delta" TDecimal |> default_ (dec 0 (-1));
       field "created_at" TDatetime |> default_factory_utcnow;
       field "log_metadata" TDictAny |> default_ (VDict []) |> with_json_column ];
     relationships := [("mission", "Mission")] |}.

Definition EmotionalResonance : Model :=
  {| mname := "EmotionalResonance"; tablename := Some "emotional_resonances";
     fields := [
       field "id" TInt |> Optional |> default_ VNone |> with_primary_key;
       field "entity_name" TStr |> with_max_length 100;
       field "current_state" (TEnum EmotionalState) |> default_ (VStr "serene");
       field "resonance_level" TDecimal |> default_ (dec 500 (-1))
         |> with_ge 0 |> with_le 100;
       field "harmony_index" TDecimal |> default_ (dec 500 (-1))
         |> with_ge 0 |> with_le 100;
       field "emotional_spectrum" TDictDecimal |> default_ (VDict [])
         |> with_json_column;
       field "sync_stability" TDecimal |> default_ (dec 750 (-1))
         |> with_ge 0 |> with_le 100;
       field "last_fluctuation" TDatetime |> Optional |> default_ VNone;
       field "recorded_at" TDatetime |> default_factory_utcnow;
       field "notes" TStr |> default_ (VStr "") |> with_max_length 500 ];
     relationships := [] |}.

Definition QuantumShield : Model :=
  {| mname := "QuantumShield"; tablename := Some "quantum_shields";
     fields := [
       field "id" TInt |> Optional |> default_ VNone |> with_primary_key;
       field "shield_name" TStr |> with_max_length 100;
       field "status" (TEnum ShieldStatus) |> default_ (VStr "optimal");
       field "integrity_percentage" TDecimal |> default_ (dec 1000 (-1))
         |> with_ge 0 |> with_le 100;
       field "energy_level" TDecimal |> default_ (dec 1000 (-1))
         |> with_ge 0 |> with_le 100;
       field "power_consumption" TDecimal |> default_ (dec 250 (-1)) |> with_ge 0;
       field "protection_radius_km" TDecimal |> default_ (dec 100 (-1))
         |> with_ge 0;
       field "last_breach_attempt" TDatetime |> Optional |> default_ VNone;
       field "uptime_hours" TDecimal |> default_ (dec 0 (-1)) |> with_ge 0;
       field "configuration" TDictAny |> default_ (VDict []) |> with_json_column;
       field "status_updated_at" TDatetime |> default_factory_utcnow ];
     relationships := [("healing_modules", "HealingModule")] |}.

Definition HealingModule : Model :=
  {| mname := "HealingModule"; tablename := Some "healing_modules";
     fields := [
       field "id" TInt |> Optional |> default_ VNone |> with_primary_key;
       field "shield_id" TInt |> with_foreign_key "quantum_shields" "id";
       field "module_name" TStr |> with_max_length 100;
       field "is_operational" TBool |> default_ (VBool true);
       field "healing_rate" TDecimal |> default_ (dec 100 (-1)) |> with_ge 0;
       field "energy_efficiency" TDecimal |> default_ (dec 850 (-1))
         |> with_ge 0 |> with_le 100;
       field "target_systems" TListStr |> default_ (VList []) |> with_json_column;
       field "last_activation" TDatetime |> Optional |> default_ VNone;
       field "total_healings" TInt |> default_ (VInt 0) |> with_ge 0;
       field "created_at" TDatetime |> default_factory_utcnow ];
     relationships := [("shield", "QuantumShield")] |}.

Definition entities : list Model :=
  [Glyph; TransformationProtocol; TransformationStep; Mission;
   MissionLogEntry; EmotionalResonance; QuantumShield; HealingModule].

(** *** Non-persistent schemas ([table=False]) *)

Definition GlyphCreate : Model :=
  {| mname := "GlyphCreate"; tablename := None;
     fields := [
       field "name" TStr |> with_max_length 100;
       field "symbol" TStr |> with_max_length 10;
       field "category" (TEnum GlyphCategory) |> default_ (VStr "energy");
       field "power_level" TDecimal |> default_ (dec 10 (-1))
         |> with_ge 0 |> with_le 100;
       field "description" TStr |> default_ (VStr "") |> with_max_length 1000;
       field "properties" TDictAny |> default_ (VDict []) ];
     relationships := [] |}.

Definition GlyphUpdate : Model :=
  {| mname := "GlyphUpdate"; tablename := None;
     fields := [
       field "name" TStr |> Optional |> default_ VNone |> with_max_length 100;
       field "symbol" TStr |> Optional |> default_ VNone |> with_max_length 10;
       field "category" (TEnum GlyphCategory) |> Optional |> default_ VNone;
       field "power_level" TDecimal |> Optional |> default_ VNone
         |> with_ge 0 |> with_le 100;
       field "description" TStr |> Optional |> default_ VNone
         |> with_max_length 1000;
       field "properties" TDictAny |> Optional |> default_ VNone;
       field "is_active" TBool |> Optional |> default_ VNone ];
     relationships := [] |}.

Definition TransformationProtocolCreate : Model :=
  {| mname := "TransformationProtocolCreate"; tablename := None;
     fields := [
       field "name" TStr |> with_max_length 150;
       field "description" TStr |> default_ (VStr "") |> with_max_length 2000;
       field "duration_minutes" TInt |> default_ (VInt 60) |> with_ge 1;
       field "energy_cost" TDecimal |> default_ (dec 100 (-1)) |> with_ge 0;
       field "success_rate" TDecimal |> default_ (dec 850 (-1))
         |> with_ge 0 |> with_le 100;
       field "requirements" TListStr |> default_ (VList []);
       field "effects" TDictAny |> default_ (VDict []) ];
     relationships := [] |}.

Definition MissionCreate : Model :=
  {| mname := "MissionCreate"; tablename := None;
     fields := [
       field "title" TStr |> with_max_length 200;
       field "description" TStr |> default_ (VStr "") |> with_max_length 2000;
       field "priority" (TEnum MissionPriority) |> default_ (VStr "medium");
       field "protocol_id" TInt |> Optional |> default_ VNone;
       field "assigned_entity" TStr |> default_ (VStr "") |> with_max_length 100;
       field "target_location" TStr |> default_ (VStr "") |> with_max_length 200;
       field "objectives" TListStr |> default_ (VList []);
       field "estimated_completion" TDatetime |> Optional |> default_ VNone ];
     relationships := [] |}.

Definition MissionUpdate : Model :=
  {| mname := "MissionUpdate"; tablename := None;
     fields := [
       field "title" TStr |> Optional |> default_ VNone |> with_max_length 200;
       field "description" TStr |> Optional |> default_ VNone
         |> with_max_length 2000;
       field "status" (TEnum MissionStatus) |> Optional |> default_ VNone;
       field "priority" (TEnum MissionPriority) |> Optional |> default_ VNone;
       field "progress_percentage" TDecimal |> Optional |> default_ VNone
         |> with_ge 0 |> with_le 100;
       field "assigned_entity" TStr |> Optional |> default_ VNone
         |> with_max_length 100;
       field "target_location" TStr |> Optional |> default_ VNone
         |> with_max_length 200;
       field "objectives" TListStr |> Optional |> default_ VNone ];
     relationships := [] |}.

Definition EmotionalResonanceCreate : Model :=
  {| mname := "EmotionalResonanceCreate"; tablename := None;
     fields := [
       field "entity_name" TStr |> with_max_length 100;
       field "current_state" (TEnum EmotionalState) |> default_ (VStr "serene");
       field "resonance_level" TDecimal |> default_ (dec 500 (-1))
         |> with_ge 0 |> with_le 100;
       field "harmony_index" TDecimal |> default_ (dec 500 (-1))
         |> with_ge 0 |> with_le 100;
       field "emotional_spectrum" TDictDecimal |> default_ (VDict []);
       field "sync_stability" TDecimal |> default_ (dec 750 (-1))
         |> with_ge 0 |> with_le 100;
       field "notes" TStr |> default_ (VStr "") |> with_max_length 500 ];
     relationships := [] |}.

Definition QuantumShieldCreate : Model :=
  {| mname := "QuantumShieldCreate"; tablename := None;
     fields := [
       field "shield_name" TStr |> with_max_length 100;
       field "status" (TEnum ShieldStatus) |> default_ (VStr "optimal");
       field "integrity_percentage" TDecimal |> default_ (dec 1000 (-1))
         |> with_ge 0 |> with_le 100;
       field "energy_level" TDecimal |> default_ (dec 1000 (-1))
         |> with_ge 0 |> with_le 100;
       field "power_consumption" TDecimal |> default_ (dec 250 (-1)) |> with_ge 0;
       field "protection_radius_km" TDecimal |> default_ (dec 100 (-1))
         |> with_ge 0;
       field "configuration" TDictAny |> default_ (VDict []) ];
     relationships := [] |}.

Definition QuantumShieldUpdate : Model :=
  {| mname := "QuantumShieldUpdate"; tablename := None;
     fields := [
       field "shield_name" TStr |> Optional |> default_ VNone
         |> with_max_length 100;
       field "status" (TEnum ShieldStatus) |> Optional |> default_ VNone;
       field "integrity_percentage" TDecimal |> Optional |> default_ VNone
         |> with_ge 0 |> with_le 100;
       field "energy_level" TDecimal |> Optional |> default_ VNone
         |> with_ge 0 |> with_le 100;
       field "power_consumption" TDecimal |> Optional |> default_ VNone
         |> with_ge 0;
       field "protection_radius_km" TDecimal |> Optional |> default_ VNone
         |> with_ge 0;
       field "configuration" TDictAny |> Optional |> default_ VNone ];
     relationships := [] |}.

Definition HealingModuleCreate : Model :=
  {| mname := "HealingModuleCreate"; tablename := None;
     fields := [
       field "shield_id" TInt;
       field "module_name" TStr |> with_max_length 100;
       field "healing_rate" TDecimal |> default_ (dec 100 (-1)) |> with_ge 0;
       field "energy_efficiency" TDecimal |> default_ (dec 850 (-1))
         |> with_ge 0 |> with_le 100;
       field "target_systems" TListStr |> default_ (VList []) ];
     relationships := [] |}.

Definition schemas : list Model :=
  [GlyphCreate; GlyphUpdate; TransformationProtocolCreate; MissionCreate;
   MissionUpdate; EmotionalResonanceCreate; QuantumShieldCreate;
   QuantumShieldUpdate; HealingModuleCreate].

Definition models : list Model := entities ++ schemas.

(** ** Validation

    The meaning of the declared constraints: what validating a set of keyword
    arguments against a class ([Model.model_validate]) checks, and the
    instance it builds.  An input of the Python type the annotation names is
    taken as it is; an [int] given for a [Decimal] becomes that decimal and
    a [bool] given for an [int] becomes 0 or 1.  A [Decimal] that is not
    finite is rejected ([finite_number]).

    The validation library converts further inputs of another type (numeric
    strings given for a number, integral decimals given for an [int],
    timestamps and ISO strings given for a [datetime], words and 0/1 given
    for a [bool]); these conversions are the library's and are not
    embedded.  On such an input the embedding gives no verdict of the code:
    it answers [unconverted], and the statements below that speak of inputs
    keep to inputs of the annotated type.  [wrong_type] is an input the
    library does not convert.

    Defaults are used as declared and are not validated.  Unknown keyword
    arguments are ignored. *)

Inductive violation : Type :=
  | missing
  | wrong_type
  | enum_error (e : string)
  | string_too_long (n : nat)
  | greater_than_equal (z : Z)
  | less_than_equal (z : Z)
  | finite_number
  | unconverted.

Definition is_str (v : value) : bool :=
  match v with VStr _ => true | _ => false end.

Definition as_decimal (v : value) : option Decimal :=
  match v with
  | VDec d => Some d
  | VInt n => Some (Dec.of_int n)
  | _ => None
  end.

Definition as_decimal_item (kv : string * value) : option (string * value) :=
  d ← as_decimal kv.2; Some (kv.1, VDec d).

(** What is wrong with a value that is no decimal, on a [Decimal] field. *)
Definition decimal_violation (v : value) : violation :=
  match v with
  | VNonFinite _ => finite_number
  | VStr _ | VBool _ => unconverted
  | _ => wrong_type
  end.

(** The same for the first entry of a [Dict[str, Decimal]] that is no
    decimal. *)
Definition dict_violation (m : list (string * value)) : violation :=
  match List.find (λ kv, negb (bool_decide (is_Some (as_decimal kv.2)))) m with
  | Some kv => decimal_violation kv.2
  | None => wrong_type
  end.

(** The type of the annotation: the converted value, or the violation. *)
Definition check_type (t : pytype) (v : value) : violation + value :=
  match t, v with
  | TInt, VInt n => inr (VInt n)
  | TInt, VBool b => inr (VInt (if b then 1 else 0))
  | TInt, VStr _ => inl unconverted
  | TInt, VDec _ => inl unconverted
  | TStr, VStr s => inr (VStr s)
  | TBool, VBool b => inr (VBool b)
  | TBool, VInt _ => inl unconverted
  | TBool, VDec _ => inl unconverted
  | TBool, VStr _ => inl unconverted
  | TDecimal, v =>
      match as_decimal v with
      | Some d => inr (VDec d)
      | None => inl (decimal_violation v)
      end
  | TDatetime, VDatetime t => inr (VDatetime t)
  | TDatetime, VInt _ => inl unconverted
  | TDatetime, VDec _ => inl unconverted
  | TDatetime, VStr _ => inl unconverted
  | TDatetime, VBool _ => inl unconverted
  | TEnum e, VStr s =>
      if bool_decide (s ∈ member_values e) then inr (VStr s)
      else inl (enum_error (ename e))
  | TEnum e, _ => inl (enum_error (ename e))
  | TListStr, VList l =>
      if forallb is_str l then inr (VList l) else inl wrong_type
  | TDictAny, VDict m => inr (VDict m)
  | TDictDecimal, VDict m =>
      match mapM as_decimal_item m with
      | Some m' => inr (VDict m')
      | None => inl (dict_violation m)
      end
  | _, _ => inl wrong_type
  end.

(** The keyword constraints of [Field], on a value of the right type. *)
Definition check_max_length (f : FieldInfo) (v : value) : list violation :=
  match max_length f, v with
  | Some n, VStr s => if (code_points s <=? n)%nat then [] else [string_too_long n]
  | _, _ => []
  end.

Definition check_ge (f : FieldInfo) (v : value) : list violation :=
  match ge f, v with
  | Some z, VInt n => if (z <=? n)%Z then [] else [greater_than_equal z]
  | Some z, VDec d =>
      if Dec.leb (Dec.of_int z) d then [] else [greater_than_equal z]
  | _, _ => []
  end.

Definition check_le (f : FieldInfo) (v : value) : list violation :=
  match le f, v with
  | Some z, VInt n => if (n <=? z)%Z then [] else [less_than_equal z]
  | Some z, VDec d =>
      if Dec.leb d (Dec.of_int z) then [] else [less_than_equal z]
  | _, _ => []
  end.

Definition check_constraints (f : FieldInfo) (v : value) : list violation :=
  check_max_length f v ++ check_ge f v ++ check_le f v.

Definition check_value (f : FieldInfo) (v : value) : list violation + value :=
  match check_type (annotation f) v with
  | inl e => inl [e]
  | inr v' =>
      match check_constraints f v' with
      | [] => inr v'
      | errs => inl errs
      end
  end.

(** One field, given the keyword argument if there is one; [now] is what
    [datetime.utcnow] returns. *)
Definition validate_field (now : Z) (f : FieldInfo) (input : option value)
  : list violation + value :=
  match input with
  | None =>
      match default f with
      | Required => inl [missing]
      | Default v => inr v
      | DefaultFactoryUtcnow => inr (VDatetime now)
      end
  | Some v =>
      match v with
      | VNone => if optional f then inr VNone else check_value f v
      | _ => check_value f v
      end
  end.

Inductive error : Type :=
  | ValidationError (errors : list (string * violation))
  | ReferenceError (column : string)
  | IntegrityError (column : string)
  | NotFoundError
  | UnmappedInstanceError.

Inductive result (A : Type) : Type :=
  | Ok (a : A)
  | Err (e : error).
Arguments Ok {A} a.
Arguments Err {A} e.

Definition field_errors (now : Z) (data : attrs) (f : FieldInfo)
  : list (string * violation) :=
  match validate_field now f (data !! fname f) with
  | inl errs => pair (fname f) <$> errs
  | inr _ => []
  end.

Definition field_output (now : Z) (data : attrs) (f : FieldInfo)
  : option (string * value) :=
  match validate_field now f (data !! fname f) with
  | inl _ => None
  | inr v => Some (fname f, v)
  end.

(** The whole model: every field is checked and all violations are
    reported together, each with the name of its field. *)
Definition validate (now : Z) (m : Model) (data : attrs) : result attrs :=
  match fields m ≫= field_errors now data with
  | [] => Ok (list_to_map (omap (field_output now data) (fields m)))
  | errs => Err (ValidationError errs)
  end.

(** ** Constructing an instance

    A class declared with [table=False] validates its keyword arguments when
    it is constructed.  A class declared with [table=True] does not: its
    constructor takes each keyword argument as it is, gives an attribute
    that is left out its default, leaves a required attribute that is left
    out unset, and raises nothing. *)

Definition construct_field (now : Z) (data : attrs) (f : FieldInfo)
  : option (string * value) :=
  match data !! fname f with
  | Some v => Some (fname f, v)
  | None =>
      match default f with
      | Required => None
      | Default dv => Some (fname f, dv)
      | DefaultFactoryUtcnow => Some (fname f, VDatetime now)
      end
  end.

Definition table_construct (now : Z) (m : Model) (data : attrs) : attrs :=
  list_to_map (omap (construct_field now data) (fields m)).

Definition instantiate (now : Z) (m : Model) (data : attrs) : result attrs :=
  match tablename m with
  | Some _ => Ok (table_construct now m data)
  | None => validate now m data
  end.

(** Constructing an entity from a request shape: the shape is validated
    first and the entity is constructed from the attributes it holds, so an
    attribute the shape does not expose takes the entity's default. *)
Definition construct_from (now : Z) (shape entity : Model) (data : attrs)
  : result attrs :=
  match validate now shape data with
  | Ok d => validate now entity d
  | Err e => Err e
  end.

(** ** Stored records

    The source declares the tables; the operations that store records are
    those of the persistence layer behind it.  A store holds, for each
    table name, the rows of the table under their ids. *)

Abbreviation Store := (gmap string (gmap Z attrs)).

Definition rows (s : Store) (t : string) : gmap Z attrs :=
  match s !! t with Some tbl => tbl | None => ∅ end.

Definition next_id (tbl : gmap Z attrs) : Z :=
  1 + map_fold (λ k _ acc, Z.max k acc) 0 tbl.

Definition resolves (s : Store) (row : attrs) (f : FieldInfo) : bool :=
  match foreign_key f, row !! fname f with
  | Some (t, _), Some (VInt i) => bool_decide (is_Some (rows s t !! i))
  | _, _ => true
  end.

Definition dangling (s : Store) (row : attrs) (fs : list FieldInfo)
  : option string :=
  fname <$> List.find (λ f, negb (resolves s row f)) fs.

Definition store_row (s : Store) (t : string) (i : Z) (row : attrs)
  : Store * Z * attrs :=
  let row' := <["id" := VInt i]> row in
  (<[t := <[i := row']> (rows s t)]> s, i, row').

(** Modelled from the spec: creating a record, an operation of the
    persistence layer that is not in the source.  It enforces what the table
    declares and nothing more: the record validates, each declared
    [foreign_key] that is set resolves to a row of the parent table
    (otherwise the spec's ReferenceError, on the first such column in
    declaration order), and a primary key that is given is new; one that is
    not given is assigned. *)
Definition create (now : Z) (s : Store) (m : Model) (data : attrs)
  : result (Store * Z * attrs) :=
  match tablename m with
  | None => Err UnmappedInstanceError
  | Some t =>
      match validate now m data with
      | Err e => Err e
      | Ok row =>
          match dangling s row (fields m) with
          | Some c => Err (ReferenceError c)
          | None =>
              match row !! "id" with
              | Some (VInt i) =>
                  if bool_decide (is_Some (rows s t !! i))
                  then Err (IntegrityError "id")
                  else Ok (store_row s t i row)
              | _ => Ok (store_row s t (next_id (rows s t)) row)
              end
          end
      end
  end.

(** Modelled from the spec: applying an Update shape, which is not in the
    source.  It is the spec's partial patch: an attribute that the shape
    leaves absent or [None] is left unchanged, any other is written. *)
Definition patch_field (patch row : attrs) (f : FieldInfo) : attrs :=
  match patch !! fname f with
  | None | Some VNone => row
  | Some v => <[fname f := v]> row
  end.

Definition apply_patch (shape : Model) (patch row : attrs) : attrs :=
  foldl (patch_field patch) row (fields shape).

(** Modelled from the spec: updating the stored record [i] of an entity
    from the keyword arguments of its Update shape, which is not in the
    source; NotFoundError when there is no such record. *)
Definition update (now : Z) (s : Store) (entity shape : Model) (i : Z)
    (data : attrs) : result (Store * attrs) :=
  match tablename entity with
  | None => Err UnmappedInstanceError
  | Some t =>
      match validate now shape data with
      | Err e => Err e
      | Ok patch =>
          match rows s t !! i with
          | None => Err NotFoundError
          | Some row =>
              let row' := apply_patch shape patch row in
              Ok (<[t := <[i := row']> (rows s t)]> s, row')
          end
      end
  end.

(** ** The shapes of an entity *)

Definition shape_of (suffix : string) (e : Model) : option Model :=
  List.find (λ m, String.eqb (mname m) (mname e ++ suffix)) schemas.

Definition Create_of : Model -> option Model := shape_of "Create".
Definition Update_of : Model -> option Model := shape_of "Update".

(** * Part II: notions used in the statements

    Acceptance of a field, the instance a validation builds, the checks on
    declarations that are decided by evaluation, and the properties of
    stored records the statements speak of. *)

(** The field [f] accepts what [data] supplies for it. *)
Definition accepted (now : Z) (data : attrs) (f : FieldInfo) : Prop :=
  ∃ v, validate_field now f (data !! fname f) = inr v.

(** The instance [validate] builds when every field is accepted. *)
Definition outputs (now : Z) (m : Model) (data : attrs) : attrs :=
  list_to_map (omap (field_output now data) (fields m)).

(** The percentage attributes. *)
Definition bounded_decimal_fields : list string :=
  ["power_level"; "success_rate"; "progress_percentage";
   "integrity_percentage"; "energy_level"; "resonance_level";
   "harmony_index"; "sync_stability"; "energy_efficiency"].

Definition is_decimal (t : pytype) : bool :=
  match t with TDecimal => true | _ => false end.

(** [Decimal], [ge=0], [le=100]. *)
Definition percentage_field (f : FieldInfo) : bool :=
  is_decimal (annotation f)
  && bool_decide (max_length f = None)
  && bool_decide (ge f = Some 0)
  && bool_decide (le f = Some 100).

(** Every field of [m] that carries one of these names is declared so. *)
Definition declares_percentage (m : Model) : bool :=
  forallb (λ f, if bool_decide (fname f ∈ bounded_decimal_fields)
                then percentage_field f else true) (fields m).

(** What a decimal violates of [ge=0] and [le=100]. *)
Definition range_violations (d : Decimal) : list violation :=
  (if Dec.leb (Dec.of_int 0) d then [] else [greater_than_equal 0])
  ++ (if Dec.leb d (Dec.of_int 100) then [] else [less_than_equal 100]).

Definition is_str_type (t : pytype) : bool :=
  match t with TStr => true | _ => false end.

(** [max_length] is declared on [str] fields of [m] only. *)
Definition declares_lengths (m : Model) : bool :=
  forallb (λ f, match max_length f with
                | Some _ => is_str_type (annotation f)
                | None => true
                end) (fields m).

Definition enum_of (f : FieldInfo) : option EnumDecl :=
  match annotation f with TEnum e => Some e | _ => None end.

(** The enumerated columns of the tables, by class and attribute. *)
Definition enum_columns : list (string * string * string) :=
  e ← entities;
  f ← fields e;
  match enum_of f with
  | Some d => [(mname e, fname f, ename d)]
  | None => []
  end.

(** [g] declares the bounds that [f] declares. *)
Definition same_constraints (f g : FieldInfo) : bool :=
  bool_decide (max_length g = max_length f)
  && bool_decide (ge g = ge f)
  && bool_decide (le g = le f).

#[global] Instance EnumDecl_eq_dec : EqDecision EnumDecl.
Proof. solve_decision. Defined.

#[global] Instance pytype_eq_dec : EqDecision pytype.
Proof. solve_decision. Defined.

(** The field of [shape] that has the name of [g]. *)
Definition shape_field (shape : Model) (g : FieldInfo) : option FieldInfo :=
  List.find (λ g', String.eqb (fname g') (fname g)) (fields shape).

Definition is_accepted (r : list violation + value) : bool :=
  match r with inr _ => true | inl _ => false end.

(** The default of [g'], when it has one, is accepted by [g]. *)
Definition accepts_default (g' g : FieldInfo) : bool :=
  match default g' with
  | Required => true
  | Default dv => is_accepted (validate_field 0 g (Some dv))
  | DefaultFactoryUtcnow => is_accepted (validate_field 0 g (Some (VDatetime 0)))
  end.

(** The entity field [g] takes whatever the shape field [g'] lets through:
    same annotation and bounds, [None] allowed where the shape allows it,
    and the shape's default acceptable to the entity. *)
Definition compatible (g' g : FieldInfo) : bool :=
  bool_decide (annotation g = annotation g')
  && same_constraints g' g
  && implb (optional g') (optional g)
  && accepts_default g' g.

Definition has_default (g : FieldInfo) : bool :=
  match default g with Required => false | _ => true end.

(** Each field of the entity is compatible with the shape's field of that
    name, or the shape has none and the entity field has a default. *)
Definition constructible (shape entity : Model) : bool :=
  forallb (λ g, match shape_field shape g with
                | Some g' => compatible g' g
                | None => has_default g
                end) (fields entity).

(** The attribute [j] is absent from [patch], or [None]. *)
Definition unset (patch : attrs) (j : string) : Prop :=
  patch !! j = None ∨ patch !! j = Some VNone.

(** A set actual_completion comes with status completed. *)
Definition completion_implies_completed (row : attrs) : Prop :=
  ∀ t, row !! "actual_completion" = Some (VDatetime t) ->
       row !! "status" = Some (VStr "completed").

(** An instance of [Decimal], finite or not. *)
Definition is_decimal_value (v : value) : bool :=
  match v with VDec _ | VNonFinite _ => true | _ => false end.

(** The entities that have an Update shape, with that shape. *)
Definition update_shapes : list (Model * Model) :=
  omap (λ e, pair e <$> Update_of e) entities.

(** [Optional[...] = Field(default=None, ...)]. *)
Definition optional_unset (f : FieldInfo) : bool :=
  optional f && match default f with Default VNone => true | _ => false end.

(** The references a record cannot be without: class, column, parent
    table. *)
Definition required_references : list (Model * string * string) :=
  [(TransformationStep, "protocol_id", "transformation_protocols");
   (MissionLogEntry, "mission_id", "missions");
   (HealingModule, "shield_id", "quantum_shields")].

(** The stored transformation steps. *)
Definition steps (s : Store) : gmap Z attrs := rows s "transformation_steps".

(** No two steps of one protocol share a step_order. *)
Definition unique_step_order (s : Store) : Prop :=
  ∀ i j r1 r2,
    steps s !! i = Some r1 -> steps s !! j = Some r2 ->
    r1 !! "protocol_id" = r2 !! "protocol_id" ->
    r1 !! "step_order" = r2 !! "step_order" ->
    i = j.

(** The entities that have a Create shape, with that shape. *)
Definition create_shapes : list (Model * Model) :=
  omap (λ e, pair e <$> Create_of e) entities.

(** Every field of the shape is a field of the entity, with the same
    annotation, the same bounds, [Optional] or not alike, and required or
    defaulted alike. *)
Definition mirrors (e shape : Model) : bool :=
  forallb (λ g, match shape_field e g with
                | Some f =>
                    bool_decide (annotation f = annotation g)
                    && same_constraints g f
                    && bool_decide (optional f = optional g)
                    && bool_decide (has_default f = has_default g)
                | None => false
                end) (fields shape).

(** Every field of the shape is [Optional] with default [None], and is a
    field of the entity with the same annotation and the same bounds. *)
Definition patches (e shape : Model) : bool :=
  forallb (λ g, optional_unset g
                && match shape_field e g with
                   | Some f =>
                       bool_decide (annotation f = annotation g)
                       && same_constraints g f
                   | None => false
                   end) (fields shape).

(** The declared default of [f], if it has one, is accepted by [f] itself
    and comes back unchanged; a [default_factory=datetime.utcnow] stands on
    a [datetime] field. *)
Definition default_valid (f : FieldInfo) : Prop :=
  match default f with
  | Required => True
  | Default dv => validate_field 0 f (Some dv) = inr dv
  | DefaultFactoryUtcnow => annotation f = TDatetime
  end.

(** A required field is not [Optional], in every field of [m]. *)
Definition required_not_optional (m : Model) : bool :=
  forallb (λ f, has_default f || negb (optional f)) (fields m).

(** The columns of the tables that declare a lower bound and no upper
    bound: class, attribute, bound. *)
Definition lower_bounded_columns : list (string * string * Z) :=
  e ← entities;
  f ← fields e;
  match ge f, le f with
  | Some z, None => [(mname e, fname f, z)]
  | _, _ => []
  end.

(** The value is of the Python type the annotation names: an [int] for
    [int], a finite [Decimal] for [Decimal], a member's value for an
    enumeration, a container with items of the named type. *)
Definition is_dec (v : value) : bool :=
  match v with VDec _ => true | _ => false end.

Definition of_annotated_type (t : pytype) (v : value) : bool :=
  match t, v with
  | TInt, VInt _ => true
  | TStr, VStr _ => true
  | TBool, VBool _ => true
  | TDecimal, VDec _ => true
  | TDatetime, VDatetime _ => true
  | TEnum e, VStr s => bool_decide (s ∈ member_values e)
  | TListStr, VList l => forallb is_str l
  | TDictAny, VDict _ => true
  | TDictDecimal, VDict m => forallb (λ kv, is_dec kv.2) m
  | _, _ => false
  end.

(** ** Relationships and enumerations, as declared *)

(** [List["T"]], [T] and [Optional[T]] on a [Relationship] attribute. *)
Inductive cardinality : Type := ToMany | ToOne | ToOptionalOne.

#[global] Instance cardinality_eq_dec : EqDecision cardinality.
Proof. solve_decision. Defined.

(** [attribute: ... = Relationship(back_populates=...)] in class [owner]. *)
Record RelationshipInfo : Type := {
  owner : string;
  attribute : string;
  target : string;
  cardinal : cardinality;
  back_populates : string
}.

Definition relationship_decls : list RelationshipInfo :=
  [ {| owner := "Glyph"; attribute := "transformation_steps";
       target := "TransformationStep"; cardinal := ToMany;
       back_populates := "glyph" |};
    {| owner := "TransformationProtocol"; attribute := "steps";
       target := "TransformationStep"; cardinal := ToMany;
       back_populates := "protocol" |};
    {| owner := "TransformationProtocol"; attribute := "missions";
       target := "Mission"; cardinal := ToMany;
       back_populates := "protocol" |};
    {| owner := "TransformationStep"; attribute := "protocol";
       target := "TransformationProtocol"; cardinal := ToOne;
       back_populates := "steps" |};
    {| owner := "TransformationStep"; attribute := "glyph";
       target := "Glyph"; cardinal := ToOptionalOne;
       back_populates := "transformation_steps" |};
    {| owner := "Mission"; attribute := "protocol";
       target := "TransformationProtocol"; cardinal := ToOptionalOne;
       back_populates := "missions" |};
    {| owner := "Mission"; attribute := "log_entries";
       target := "MissionLogEntry"; cardinal := ToMany;
       back_populates := "mission" |};
    {| owner := "MissionLogEntry"; attribute := "mission";
       target := "Mission"; cardinal := ToOne;
       back_populates := "log_entries" |};
    {| owner := "QuantumShield"; attribute := "healing_modules";
       target := "HealingModule"; cardinal := ToMany;
       back_populates := "shield" |};
    {| owner := "HealingModule"; attribute := "shield";
       target := "QuantumShield"; cardinal := ToOne;
       back_populates := "healing_modules" |} ].

(** The relationships of a class, as the class lists them. *)
Definition relationships_of (m : Model) : list (string * string) :=
  (λ r, (attribute r, target r))
    <$> filter (λ r, owner r = mname m) relationship_decls.

(** [r'] is the other end of [r]. *)
Definition other_end (r r' : RelationshipInfo) : Prop :=
  owner r' = target r ∧ attribute r' = back_populates r
  ∧ target r' = owner r ∧ back_populates r' = attribute r.

(** The class [m] has a column that refers to the primary key of the table
    of class [p], Optional or not as [opt] says. *)
Definition refers_to (m p : Model) (opt : bool) : Prop :=
  Exists (λ f, foreign_key f = (λ t, (t, "id")) <$> tablename p
               ∧ optional f = opt) (fields m).

(** The to-one end [r] is backed by such a column of its owner. *)
Definition backed_by_column (r : RelationshipInfo) : Prop :=
  Exists (λ m, mname m = owner r
     ∧ Exists (λ p, mname p = target r
          ∧ refers_to m p (bool_decide (cardinal r = ToOptionalOne)))
        entities) entities.

(** The column [f] refers to the primary key of a declared table, of the
    type of [f], and to no undeclared one. *)
Definition foreign_key_resolves (f : FieldInfo) : Prop :=
  match foreign_key f with
  | None => True
  | Some (t, c) =>
      Exists (λ p, tablename p = Some t
         ∧ Exists (λ g, fname g = c ∧ primary_key g = true
                        ∧ annotation g = annotation f) (fields p))
        entities
  end.

Definition enums : list EnumDecl :=
  [GlyphCategory; MissionStatus; MissionPriority; EmotionalState; ShieldStatus].

(** [E(v)], the member with value [v], and [E[n]], the member named [n],
    each as the pair of the other. *)
Definition by_value (e : EnumDecl) (v : string) : option string :=
  fst <$> List.find (λ nv, String.eqb nv.2 v) (members e).

Definition by_name (e : EnumDecl) (n : string) : option string :=
  snd <$> List.find (λ nv, String.eqb nv.1 n) (members e).

(** * Part III: the records of the scenarios

    Concrete keyword arguments, instances and stores on which the theorems
    are instantiated. *)

(** A glyph with the two required attributes. *)
Definition glyph_kwargs : attrs :=
  <["name" := VStr "Ankh"]> (<["symbol" := VStr "A"]> ∅).

Definition Glyph_power_level : FieldInfo :=
  field "power_level" TDecimal |> default_ (dec 10 (-1))
    |> with_ge 0 |> with_le 100.

Definition Glyph_symbol : FieldInfo :=
  field "symbol" TStr |> with_max_length 10.

Definition Mission_status : FieldInfo :=
  field "status" (TEnum MissionStatus) |> default_ (VStr "pending").

Definition mission_kwargs : attrs := <["title" := VStr "Recover the relic"]> ∅.

Definition completed_early_kwargs : attrs :=
  <["actual_completion" := VDatetime 5]> mission_kwargs.

Definition complete_kwargs : attrs := <["status" := VStr "completed"]> ∅.

Definition Mission_actual_completion : FieldInfo :=
  field "actual_completion" TDatetime |> Optional |> default_ VNone.

(** A mission that is active and has an actual_completion. *)
Definition active_completed_kwargs : attrs :=
  <["status" := VStr "active"]> completed_early_kwargs.

(** Keyword arguments that the declared constraints reject. *)
Definition overcharged_kwargs : attrs :=
  <["power_level" := dec 1001 (-1)]> glyph_kwargs.

Definition done_kwargs : attrs := <["status" := VStr "done"]> mission_kwargs.

Definition long_symbol_kwargs : attrs :=
  <["symbol" := VStr "☥☥☥☥☥☥☥☥☥☥☥"]> glyph_kwargs.

(** The relic mission as MissionCreate and Mission build it, and the
    MissionUpdate that completes it. *)
Definition relic_mission : attrs :=
  outputs 0 Mission (outputs 0 MissionCreate mission_kwargs).

Definition complete_patch : attrs := outputs 1 MissionUpdate complete_kwargs.

Definition stored_relic : attrs := <["id" := VInt 1]> relic_mission.

Definition relic_store : Store := {["missions" := {[1 := stored_relic]}]}.

(** The protocol of the scenario, stored under id 1, and its first step. *)
Definition solar_kwargs : attrs :=
  <["name" := VStr "Solar Cleansing"]>
    (<["duration_minutes" := VInt 30]> (<["success_rate" := VInt 90]> ∅)).

Definition solar_protocol : attrs :=
  <["id" := VInt 1]> (outputs 0 TransformationProtocol solar_kwargs).

Definition solar_store : Store :=
  {["transformation_protocols" := {[1 := solar_protocol]}]}.

Definition align_kwargs : attrs :=
  <["protocol_id" := VInt 1]>
    (<["step_order" := VInt 1]> (<["instruction" := VStr "Align crystals"]> ∅)).

Definition orphan_kwargs : attrs := <["protocol_id" := VInt 7]> align_kwargs.

Definition MissionLogEntry_progress_delta : FieldInfo :=
  field "progress_delta" TDecimal |> default_ (dec 0 (-1)).

Definition halfway_kwargs : attrs :=
  <["mission_id" := VInt 1]> (<["message" := VStr "Halfway there"]> ∅).

Definition halfway_entry : attrs :=
  outputs 0 MissionLogEntry (delete "progress_delta" halfway_kwargs).

Definition align_step : attrs := outputs 0 TransformationStep align_kwargs.

(** The store after "Align crystals" is created as step 1 of the protocol,
    and after the same keyword arguments are used once more. *)
Definition aligned_store : Store :=
  <["transformation_steps" :=
      <[1 := <["id" := VInt 1]> align_step]> (steps solar_store)]> solar_store.

Definition aligned_twice_store : Store :=
  <["transformation_steps" :=
      <[2 := <["id" := VInt 2]> align_step]> (steps aligned_store)]>
    aligned_store.

Definition TransformationStep_step_order : FieldInfo :=
  field "step_order" TInt |> with_ge 1.

Definition zero_power_kwargs : attrs :=
  <["power_level" := VInt 0]> glyph_kwargs.

Definition TransformationProtocol_energy_cost : FieldInfo :=
  field "energy_cost" TDecimal |> default_ (dec 100 (-1)) |> with_ge 0.

Definition TransformationProtocol_duration_minutes : FieldInfo :=
  field "duration_minutes" TInt |> default_ (VInt 60) |> with_ge 1.

Definition solar_cost_kwargs (c : value) : attrs :=
  <["energy_cost" := c]> solar_kwargs.

(** * Part IV: facts and theorems *)

(** ** Decimal comparison agrees with the rationals *)

Module DecFacts.
Import Dec.

Lemma ten_apart : ~ (inject_Z 10 == 0)%Q.
Proof. intros H. discriminate H. Qed.

Lemma pow10_pos (e : Z) : (0 < inject_Z 10 ^ e)%Q.
Proof. apply Qpower_0_lt. reflexivity. Qed.

Lemma inject_pow10 (n : Z) : 0 <= n -> (inject_Z (10 ^ n) == inject_Z 10 ^ n)%Q.
Proof. apply Zpower_Qpower. Qed.

Lemma value_rescale (d : Decimal) (e : Z) :
  e <= exponent d ->
  (value d == inject_Z (rescale d e) * inject_Z 10 ^ e)%Q.
Proof.
  intros He. unfold value, rescale.
  rewrite inject_Z_mult, inject_pow10 by lia.
  rewrite <- Qmult_assoc, <- Qpower_plus by apply ten_apart.
  replace (exponent d - e + e) with (exponent d) by lia. reflexivity.
Qed.

Lemma compare_value (a b : Decimal) : compare a b = (value a ?= value b)%Q.
Proof.
  unfold compare.
  set (e := Z.min (exponent a) (exponent b)).
  assert (Ha : e <= exponent a) by (subst e; lia).
  assert (Hb : e <= exponent b) by (subst e; lia).
  pose proof (value_rescale a e Ha) as Va.
  pose proof (value_rescale b e Hb) as Vb.
  pose proof (pow10_pos e) as Hp.
  destruct (Z.compare_spec (rescale a e) (rescale b e)) as [Heq|Hlt|Hgt];
    symmetry.
  - apply Qeq_alt. rewrite Va, Vb, Heq. reflexivity.
  - apply Qlt_alt. rewrite Va, Vb. apply Qmult_lt_r; [exact Hp|].
    rewrite <- Zlt_Qlt. exact Hlt.
  - apply Qgt_alt. rewrite Va, Vb. apply Qmult_lt_r; [exact Hp|].
    rewrite <- Zlt_Qlt. exact Hgt.
Qed.

Lemma leb_value (a b : Decimal) : leb a b = true <-> (value a <= value b)%Q.
Proof.
  unfold leb. rewrite compare_value, Qle_alt.
  destruct (value a ?= value b)%Q; split; intros H; congruence.
Qed.

Lemma leb_false_value (a b : Decimal) :
  leb a b = false <-> (value b < value a)%Q.
Proof.
  unfold leb.
  rewrite compare_value, Qlt_alt, <- (Qcompare_antisym (value a) (value b)).
  destruct (value a ?= value b)%Q; simpl; split; intros H; congruence.
Qed.

Lemma value_of_int (n : Z) : (value (of_int n) == inject_Z n)%Q.
Proof. unfold value, of_int; simpl. apply Qmult_1_r. Qed.

End DecFacts.

(** ** Facts about [validate] *)

Section validate_facts.
Context (now : Z) (data : attrs).

Lemma field_errors_accepted (f : FieldInfo) :
  accepted now data f -> field_errors now data f = [].
Proof. intros [v Hv]. unfold field_errors. by rewrite Hv. Qed.

Lemma field_errors_rejected (f : FieldInfo) (vs : list violation) :
  validate_field now f (data !! fname f) = inl vs ->
  field_errors now data f = pair (fname f) <$> vs.
Proof. intros Hv. unfold field_errors. by rewrite Hv. Qed.

Lemma check_value_errors (f : FieldInfo) (v : value) (vs : list violation) :
  check_value f v = inl vs -> vs ≠ [].
Proof.
  unfold check_value. destruct (check_type _ _); [intros [= <-]; done|].
  destruct (check_constraints f v0) eqn:E; [done|]. intros [= <-]. done.
Qed.

Lemma validate_field_errors (f : FieldInfo) (x : option value)
    (vs : list violation) :
  validate_field now f x = inl vs -> vs ≠ [].
Proof.
  unfold validate_field. destruct x as [v|].
  - destruct v; try apply check_value_errors.
    destruct (optional f); [done | apply check_value_errors].
  - destruct (default f); [intros [= <-]; done | done | done].
Qed.

Lemma field_errors_nil (f : FieldInfo) :
  field_errors now data f = [] -> accepted now data f.
Proof.
  unfold field_errors, accepted.
  destruct (validate_field now f (data !! fname f)) as [vs|v] eqn:E;
    [|by eauto].
  apply validate_field_errors in E. destruct vs; done.
Qed.

Lemma validate_rejects (m : Model) (f : FieldInfo) (vs : list violation)
    (e : violation) :
  f ∈ fields m ->
  validate_field now f (data !! fname f) = inl vs ->
  e ∈ vs ->
  ∃ errs, validate now m data = Err (ValidationError errs)
          ∧ (fname f, e) ∈ errs.
Proof.
  intros Hf Hv He. unfold validate.
  assert (Hin : (fname f, e) ∈ fields m ≫= field_errors now data).
  { apply list_elem_of_bind. exists f. split; [|done].
    rewrite (field_errors_rejected _ _ Hv). by apply list_elem_of_fmap_2. }
  destruct (fields m ≫= field_errors now data) as [|e0 errs];
    [by apply elem_of_nil in Hin|].
  eauto.
Qed.

Lemma validate_accepts (m : Model) :
  Forall (accepted now data) (fields m) ->
  validate now m data = Ok (outputs now m data).
Proof.
  intros Hall. unfold validate.
  assert (Hnil : fields m ≫= field_errors now data = []).
  { induction Hall as [|f fs Hf _ IH]; [done|].
    by rewrite bind_cons, (field_errors_accepted _ Hf), IH. }
  by rewrite Hnil.
Qed.

Lemma validate_Ok_inv (m : Model) (row : attrs) :
  validate now m data = Ok row ->
  row = outputs now m data ∧ Forall (accepted now data) (fields m).
Proof.
  unfold validate.
  destruct (fields m ≫= field_errors now data) as [|e errs] eqn:E; [|done].
  intros [= <-]. split; [done|].
  apply Forall_forall. intros f Hf. apply field_errors_nil.
  assert (Hsub : ∀ x, x ∈ field_errors now data f -> x ∈ @nil (string * violation)).
  { intros x Hx. rewrite <- E. apply list_elem_of_bind. eauto. }
  destruct (field_errors now data f) as [|x xs]; [done|].
  exfalso. eapply not_elem_of_nil, Hsub. left.
Qed.

Lemma outputs_keys (fs : list FieldInfo) :
  (omap (field_output now data) fs).*1 `sublist_of` fname <$> fs.
Proof.
  induction fs as [|f fs IH]; [done|]. simpl.
  unfold field_output at 1.
  destruct (validate_field now f (data !! fname f)); simpl.
  - by apply sublist_cons.
  - by apply sublist_skip.
Qed.

Lemma outputs_lookup (m : Model) (f : FieldInfo) (v : value) :
  NoDup (field_names m) ->
  f ∈ fields m ->
  validate_field now f (data !! fname f) = inr v ->
  outputs now m data !! fname f = Some v.
Proof.
  intros Hnd Hf Hv. apply elem_of_list_to_map_1.
  - eapply sublist_NoDup; [exact Hnd | apply outputs_keys].
  - apply list_elem_of_omap. exists f. split; [done|].
    unfold field_output. by rewrite Hv.
Qed.

Lemma outputs_lookup_None (m : Model) (k : string) :
  k ∉ field_names m -> outputs now m data !! k = None.
Proof.
  intros Hk. apply not_elem_of_list_to_map_1. intros Hin. apply Hk.
  eapply elem_of_sublist; [exact Hin | apply outputs_keys].
Qed.

End validate_facts.

(** Membership in a declared list, case by case. *)
Ltac each_member H :=
  repeat (apply elem_of_cons in H as [H|H]; [try subst|]);
  try (apply elem_of_nil in H; destruct H).

(** A concrete record validates: field by field. *)
Ltac validated :=
  apply validate_accepts;
  repeat (apply Forall_cons; split); [..|by apply Forall_nil];
  eexists; vm_compute; reflexivity.

Ltac in_list :=
  unfold models, entities, schemas; simpl;
  repeat first [apply list_elem_of_here | apply list_elem_of_further].

(** Field names are not repeated within a class. *)
Lemma field_names_NoDup (m : Model) : m ∈ models -> NoDup (field_names m).
Proof.
  intros Hm. unfold models, entities, schemas in Hm. simpl in Hm.
  each_member Hm; apply (bool_decide_unpack _); vm_compute; exact I.
Qed.

(** ** Constructing a table entity *)

Lemma construct_keys (now : Z) (data : attrs) (fs : list FieldInfo) :
  (omap (construct_field now data) fs).*1 `sublist_of` fname <$> fs.
Proof.
  induction fs as [|f fs IH]; [done|]. simpl.
  unfold construct_field at 1.
  destruct (data !! fname f); simpl; [by apply sublist_skip|].
  destruct (default f); simpl;
    [by apply sublist_cons | by apply sublist_skip | by apply sublist_skip].
Qed.

(** A table entity holds each keyword argument as given. *)
Lemma table_construct_lookup (now : Z) (m : Model) (data : attrs)
    (f : FieldInfo) (v : value) :
  NoDup (field_names m) -> f ∈ fields m -> data !! fname f = Some v ->
  table_construct now m data !! fname f = Some v.
Proof.
  intros Hnd Hf Hv. apply elem_of_list_to_map_1.
  - eapply sublist_NoDup; [exact Hnd | apply construct_keys].
  - apply list_elem_of_omap. exists f. split; [done|].
    unfold construct_field. by rewrite Hv.
Qed.

(** Constructing a [table=True] class raises nothing. *)
Lemma instantiate_table (now : Z) (m : Model) (data : attrs) (t : string) :
  tablename m = Some t -> instantiate now m data = Ok (table_construct now m data).
Proof. intros Ht. unfold instantiate. by rewrite Ht. Qed.

(** Constructing a [table=False] class validates. *)
Lemma instantiate_schema (now : Z) (m : Model) (data : attrs) :
  tablename m = None -> instantiate now m data = validate now m data.
Proof. intros Ht. unfold instantiate. by rewrite Ht. Qed.

(** ** Percentage fields *)

Lemma bounded_fields_declared (m : Model) (f : FieldInfo) :
  m ∈ models -> f ∈ fields m -> fname f ∈ bounded_decimal_fields ->
  percentage_field f = true.
Proof.
  intros Hm Hf Hn.
  assert (Hall : forallb declares_percentage models = true)
    by (vm_compute; reflexivity).
  rewrite forallb_forall in Hall.
  apply list_elem_of_In, Hall in Hm. unfold declares_percentage in Hm.
  rewrite forallb_forall in Hm. apply list_elem_of_In, Hm in Hf.
  by rewrite bool_decide_eq_true_2 in Hf.
Qed.

(** Each of the nine names is a column of some table. *)
Lemma bounded_fields_exist :
  Forall (λ n, ∃ m f, m ∈ entities ∧ f ∈ fields m ∧ fname f = n
                      ∧ percentage_field f = true)
         bounded_decimal_fields.
Proof.
  assert (Hcol : ∀ m k f n, m ∈ entities -> fields m !! k = Some f ->
            fname f = n -> percentage_field f = true ->
            ∃ m f, m ∈ entities ∧ f ∈ fields m ∧ fname f = n
                   ∧ percentage_field f = true).
  { intros m k f n Hm Hk Hn Hp. exists m, f. split; [done|].
    split; [by eapply list_elem_of_lookup_2|done]. }
  unfold bounded_decimal_fields.
  repeat (apply Forall_cons; split); [..|by apply Forall_nil].
  - eapply (Hcol Glyph 4%nat); [in_list|done..].
  - eapply (Hcol TransformationProtocol 5%nat); [in_list|done..].
  - eapply (Hcol Mission 9%nat); [in_list|done..].
  - eapply (Hcol QuantumShield 3%nat); [in_list|done..].
  - eapply (Hcol QuantumShield 4%nat); [in_list|done..].
  - eapply (Hcol EmotionalResonance 3%nat); [in_list|done..].
  - eapply (Hcol EmotionalResonance 4%nat); [in_list|done..].
  - eapply (Hcol EmotionalResonance 6%nat); [in_list|done..].
  - eapply (Hcol HealingModule 5%nat); [in_list|done..].
Qed.

Lemma percentage_field_inv (f : FieldInfo) :
  percentage_field f = true ->
  annotation f = TDecimal ∧ max_length f = None
  ∧ ge f = Some 0 ∧ le f = Some 100.
Proof.
  unfold percentage_field. rewrite !andb_true_iff, !bool_decide_eq_true.
  intros [[[Ht ?] ?] ?]. destruct (annotation f); done.
Qed.

Lemma percentage_validate (now : Z) (f : FieldInfo) (v : value) (d : Decimal) :
  percentage_field f = true -> as_decimal v = Some d ->
  validate_field now f (Some v)
  = match range_violations d with [] => inr (VDec d) | errs => inl errs end.
Proof.
  intros (Ht & Hm & Hge & Hle)%percentage_field_inv Hd.
  assert (Hc : check_value f v
    = match range_violations d with [] => inr (VDec d) | errs => inl errs end).
  { unfold check_value. rewrite Ht. simpl. rewrite Hd.
    unfold check_constraints, check_max_length, check_ge, check_le.
    by rewrite Hm, Hge, Hle. }
  destruct v; simpl in Hd; try discriminate; exact Hc.
Qed.

Lemma range_violations_out (d : Decimal) :
  (Dec.value d < 0 ∨ 100 < Dec.value d)%Q ->
  ∃ e errs, range_violations d = e :: errs.
Proof.
  unfold range_violations. intros [Hlo|Hhi].
  - assert (Dec.leb (Dec.of_int 0) d = false) as ->; [|by eauto].
    apply DecFacts.leb_false_value. by rewrite DecFacts.value_of_int.
  - assert (Dec.leb d (Dec.of_int 100) = false) as ->.
    { apply DecFacts.leb_false_value. by rewrite DecFacts.value_of_int. }
    destruct (Dec.leb (Dec.of_int 0) d); simpl; eauto.
Qed.

Lemma range_violations_in (d : Decimal) :
  (0 <= Dec.value d)%Q -> (Dec.value d <= 100)%Q -> range_violations d = [].
Proof.
  intros Hlo Hhi. unfold range_violations.
  assert (Dec.leb (Dec.of_int 0) d = true) as ->.
  { apply DecFacts.leb_value. by rewrite DecFacts.value_of_int. }
  assert (Dec.leb d (Dec.of_int 100) = true) as ->; [|done].
  apply DecFacts.leb_value. by rewrite DecFacts.value_of_int.
Qed.

(** C1, as stated, fails: the entities that own the nine fields are
    declared with [table=True], and constructing one raises nothing: Glyph
    is constructed with power_level 100.1. *)
Lemma bounded_decimal_unchecked_on_construction :
  ¬ (∀ now m f data v d,
       m ∈ entities -> f ∈ fields m -> fname f ∈ bounded_decimal_fields ->
       data !! fname f = Some v -> as_decimal v = Some d ->
       (Dec.value d < 0 ∨ 100 < Dec.value d)%Q ->
       ∃ errs, instantiate now m data = Err (ValidationError errs)).
Proof.
  intros H.
  destruct (H 0 Glyph Glyph_power_level overcharged_kwargs
              (dec 1001 (-1)) (Dec.mk 1001 (-1))) as [errs He].
  - in_list.
  - unfold Glyph_power_level. in_list.
  - unfold bounded_decimal_fields. in_list.
  - reflexivity.
  - reflexivity.
  - right. reflexivity.
  - rewrite (instantiate_table 0 Glyph _ "glyphs" eq_refl) in He.
    discriminate He.
Qed.

(** C1, amended.  When keyword arguments are validated against a class, a
    field named as one of the nine percentage fields rejects a decimal
    strictly below 0 or strictly above 100: validation of the class fails
    with a ValidationError holding an entry for that field.  With the value
    exactly 0 or exactly 100, and the other fields accepted, validation
    succeeds and the instance holds that decimal. *)
Theorem bounded_decimal_range (now : Z) (m : Model) (f : FieldInfo)
    (data : attrs) (v : value) (d : Decimal) :
  m ∈ models -> f ∈ fields m -> fname f ∈ bounded_decimal_fields ->
  data !! fname f = Some v -> as_decimal v = Some d ->
  ((Dec.value d < 0 ∨ 100 < Dec.value d)%Q ->
     ∃ errs e, validate now m data = Err (ValidationError errs)
               ∧ (fname f, e) ∈ errs)
  ∧ ((Dec.value d == 0 ∨ Dec.value d == 100)%Q ->
     (∀ g, g ∈ fields m -> fname g ≠ fname f -> accepted now data g) ->
     ∃ row, validate now m data = Ok row
            ∧ row !! fname f = Some (VDec d)).
Proof.
  intros Hm Hf Hn Hv Hd.
  pose proof (bounded_fields_declared m f Hm Hf Hn) as Hp.
  pose proof (percentage_validate now f v d Hp Hd) as Hval.
  split.
  - intros (e & errs & He)%range_violations_out. rewrite He in Hval.
    destruct (validate_rejects now data m f (e :: errs) e) as (es & ? & ?);
      [done | by rewrite Hv | left | by eauto].
  - intros Hd01 Hothers.
    assert (Hin : range_violations d = []).
    { apply range_violations_in; destruct Hd01 as [-> | ->]; done. }
    rewrite Hin in Hval.
    exists (outputs now m data). split.
    + apply validate_accepts, Forall_forall. intros g Hg.
      destruct (decide (fname g = fname f)) as [Heq|Hne]; [|by auto].
      exists (VDec d). rewrite Heq, Hv.
      rewrite <- Heq in Hn.
      rewrite (percentage_validate now g v d); [by rewrite Hin | | done].
      by apply (bounded_fields_declared m).
    + apply outputs_lookup; [by apply field_names_NoDup | done |].
      by rewrite Hv.
Qed.

Ltac others_accepted :=
  let g := fresh "g" in let Hg := fresh "Hg" in let Hne := fresh "Hne" in
  intros g Hg Hne; simpl in Hg; each_member Hg;
  first [ by destruct Hne | eexists; vm_compute; reflexivity ].

Lemma bounded_decimal_range_witness :
  (∃ errs e,
     validate 0 Glyph (<["power_level" := dec 1001 (-1)]> glyph_kwargs)
     = Err (ValidationError errs) ∧ ("power_level", e) ∈ errs)
  ∧ (∃ row,
       validate 0 Glyph (<["power_level" := dec 100 0]> glyph_kwargs) = Ok row
       ∧ row !! "power_level" = Some (dec 100 0)).
Proof.
  split.
  - apply (bounded_decimal_range 0 Glyph Glyph_power_level
             (<["power_level" := dec 1001 (-1)]> glyph_kwargs)
             (dec 1001 (-1)) (Dec.mk 1001 (-1))).
    + in_list.
    + unfold Glyph_power_level. in_list.
    + unfold bounded_decimal_fields. in_list.
    + reflexivity.
    + reflexivity.
    + right. reflexivity.
  - apply (bounded_decimal_range 0 Glyph Glyph_power_level
             (<["power_level" := dec 100 0]> glyph_kwargs)
             (dec 100 0) (Dec.mk 100 0)).
    + in_list.
    + unfold Glyph_power_level. in_list.
    + unfold bounded_decimal_fields. in_list.
    + reflexivity.
    + reflexivity.
    + right. reflexivity.
    + others_accepted.
Defined.

(** ** One field at a time *)

Lemma field_by_name (l : list FieldInfo) (f g : FieldInfo) :
  NoDup (fname <$> l) -> f ∈ l -> g ∈ l -> fname f = fname g -> f = g.
Proof.
  induction l as [|x l IH]; [by intros _ ?%elem_of_nil|].
  rewrite fmap_cons, NoDup_cons. intros [Hx Hnd].
  rewrite !elem_of_cons. intros [->|Hf] [->|Hg] Heq; [done| | |by auto].
  - destruct Hx. rewrite Heq. by apply list_elem_of_fmap_2.
  - destruct Hx. rewrite <- Heq. by apply list_elem_of_fmap_2.
Qed.

(** If the field [f] is accepted with output [v] and so are the fields of
    the other names, the instance is built and holds [v]. *)
Lemma validate_one_field (now : Z) (m : Model) (data : attrs) (f : FieldInfo)
    (v : value) :
  m ∈ models -> f ∈ fields m ->
  validate_field now f (data !! fname f) = inr v ->
  (∀ g, g ∈ fields m -> fname g ≠ fname f -> accepted now data g) ->
  ∃ row, validate now m data = Ok row ∧ row !! fname f = Some v.
Proof.
  intros Hm Hf Hv Hothers. pose proof (field_names_NoDup m Hm) as Hnd.
  exists (outputs now m data). split.
  - apply validate_accepts, Forall_forall. intros g Hg.
    destruct (decide (fname g = fname f)) as [Heq|Hne]; [|by auto].
    rewrite (field_by_name (fields m) g f Hnd Hg Hf Heq). by exists v.
  - by apply outputs_lookup.
Qed.

(** What a successful validation holds for a field. *)
Lemma validate_Ok_lookup (now : Z) (m : Model) (data row : attrs)
    (f : FieldInfo) :
  m ∈ models -> f ∈ fields m -> validate now m data = Ok row ->
  ∃ v, validate_field now f (data !! fname f) = inr v
       ∧ row !! fname f = Some v.
Proof.
  intros Hm Hf [-> Hall]%validate_Ok_inv.
  rewrite Forall_forall in Hall. destruct (Hall f Hf) as [v Hv].
  exists v. split; [done|].
  apply outputs_lookup; [by apply field_names_NoDup|done..].
Qed.

(** ** String lengths *)

(** [max_length] is only declared on [str] fields. *)
Lemma max_length_on_str (m : Model) (f : FieldInfo) (n : nat) :
  m ∈ models -> f ∈ fields m -> max_length f = Some n -> annotation f = TStr.
Proof.
  intros Hm Hf Hn.
  assert (Hall : forallb declares_lengths models = true)
    by (vm_compute; reflexivity).
  rewrite forallb_forall in Hall.
  apply list_elem_of_In, Hall in Hm. unfold declares_lengths in Hm.
  rewrite forallb_forall in Hm. apply list_elem_of_In, Hm in Hf.
  rewrite Hn in Hf. destruct (annotation f); done.
Qed.

Lemma bounded_str_validate (now : Z) (f : FieldInfo) (n : nat) (s : string) :
  annotation f = TStr -> max_length f = Some n ->
  validate_field now f (Some (VStr s))
  = if (code_points s <=? n)%nat then inr (VStr s)
    else inl [string_too_long n].
Proof.
  intros Ht Hn. simpl. unfold check_value. rewrite Ht. simpl.
  unfold check_constraints, check_max_length, check_ge, check_le.
  rewrite Hn. destruct (ge f), (le f), (code_points s <=? n)%nat; done.
Qed.

(** C8, as stated, fails: Glyph is declared with [table=True], and
    constructing it with a symbol of eleven characters, one more than its
    [max_length], raises nothing. *)
Lemma max_length_unchecked_on_construction :
  ¬ (∀ now m f n data s,
       m ∈ entities -> f ∈ fields m -> max_length f = Some n ->
       data !! fname f = Some (VStr s) -> code_points s = S n ->
       ∃ errs, instantiate now m data = Err (ValidationError errs)).
Proof.
  intros H.
  destruct (H 0 Glyph Glyph_symbol 10%nat long_symbol_kwargs
              "☥☥☥☥☥☥☥☥☥☥☥") as [errs He].
  - in_list.
  - unfold Glyph_symbol. in_list.
  - reflexivity.
  - reflexivity.
  - reflexivity.
  - rewrite (instantiate_table 0 Glyph _ "glyphs" eq_refl) in He.
    discriminate He.
Qed.

(** C8, amended.  In every class, for every field that declares [max_length=n],
    when the keyword arguments are validated against the class: a string of
    exactly [n] characters (code points) is accepted (validation succeeds
    when the other fields are accepted, and the instance holds the string),
    and a string of [n + 1] characters makes validation fail with a
    ValidationError whose entry names the field and the violated bound. *)
Theorem max_length_boundary (now : Z) (m : Model) (f : FieldInfo) (n : nat)
    (data : attrs) (s : string) :
  m ∈ models -> f ∈ fields m -> max_length f = Some n ->
  data !! fname f = Some (VStr s) ->
  (code_points s = n ->
     (∀ g, g ∈ fields m -> fname g ≠ fname f -> accepted now data g) ->
     ∃ row, validate now m data = Ok row ∧ row !! fname f = Some (VStr s))
  ∧ (code_points s = S n ->
     ∃ errs, validate now m data = Err (ValidationError errs)
             ∧ (fname f, string_too_long n) ∈ errs).
Proof.
  intros Hm Hf Hn Hs.
  pose proof (max_length_on_str m f n Hm Hf Hn) as Ht.
  pose proof (bounded_str_validate now f n s Ht Hn) as Hval.
  split.
  - intros Hlen Hothers. apply validate_one_field; [done..| |done].
    rewrite Hs, Hval. by rewrite (proj2 (Nat.leb_le _ _)) by lia.
  - intros Hlen. rewrite (proj2 (Nat.leb_gt _ _)) in Hval by lia.
    eapply validate_rejects; [done | by rewrite Hs | left].
Qed.

Lemma max_length_boundary_witness :
  (∃ row,
     validate 0 Glyph (<["symbol" := VStr "☥☥☥☥☥☥☥☥☥☥"]> glyph_kwargs) = Ok row
     ∧ row !! "symbol" = Some (VStr "☥☥☥☥☥☥☥☥☥☥"))
  ∧ (∃ errs,
       validate 0 Glyph (<["symbol" := VStr "☥☥☥☥☥☥☥☥☥☥☥"]> glyph_kwargs)
       = Err (ValidationError errs)
       ∧ ("symbol", string_too_long 10) ∈ errs).
Proof.
  split.
  - apply (max_length_boundary 0 Glyph Glyph_symbol 10
             (<["symbol" := VStr "☥☥☥☥☥☥☥☥☥☥"]> glyph_kwargs) "☥☥☥☥☥☥☥☥☥☥").
    + in_list.
    + unfold Glyph_symbol. in_list.
    + reflexivity.
    + reflexivity.
    + reflexivity.
    + others_accepted.
  - apply (max_length_boundary 0 Glyph Glyph_symbol 10
             (<["symbol" := VStr "☥☥☥☥☥☥☥☥☥☥☥"]> glyph_kwargs) "☥☥☥☥☥☥☥☥☥☥☥").
    + in_list.
    + unfold Glyph_symbol. in_list.
    + reflexivity.
    + reflexivity.
    + reflexivity.
Defined.

(** ** Enumerated fields *)

Lemma enum_columns_declared :
  enum_columns
  = [("Glyph", "category", "GlyphCategory");
     ("Mission", "status", "MissionStatus");
     ("Mission", "priority", "MissionPriority");
     ("EmotionalResonance", "current_state", "EmotionalState");
     ("QuantumShield", "status", "ShieldStatus")].
Proof. reflexivity. Qed.

Lemma enum_check_type (e : EnumDecl) (v w : value) :
  check_type (TEnum e) v = inr w ->
  w = v ∧ ∃ s, v = VStr s ∧ s ∈ member_values e.
Proof.
  destruct v; simpl; try discriminate.
  case_bool_decide as Hs; [|discriminate]. intros [= <-]. eauto.
Qed.

Lemma enum_check_type_outside (e : EnumDecl) (v : value) :
  (∀ s, v = VStr s -> s ∉ member_values e) ->
  check_type (TEnum e) v = inl (enum_error (ename e)).
Proof.
  intros Hout. destruct v; simpl; try done.
  case_bool_decide as Hs; [|done]. by destruct (Hout s).
Qed.

(** C7, as stated, fails: Mission is declared with [table=True], and
    constructing it with the status "done", which no member of
    MissionStatus has as its value, raises nothing. *)
Lemma enum_unchecked_on_construction :
  ¬ (∀ now m f e data v,
       m ∈ entities -> f ∈ fields m -> annotation f = TEnum e ->
       data !! fname f = Some v ->
       (∀ s, v = VStr s -> s ∉ member_values e) ->
       ∃ errs, instantiate now m data = Err (ValidationError errs)).
Proof.
  intros H.
  destruct (H 0 Mission Mission_status MissionStatus done_kwargs (VStr "done"))
    as [errs He].
  - in_list.
  - unfold Mission_status. in_list.
  - reflexivity.
  - reflexivity.
  - intros s [= <-] Hin. simpl in Hin. each_member Hin; discriminate.
  - rewrite (instantiate_table 0 Mission _ "missions" eq_refl) in He.
    discriminate He.
Qed.

(** C7, amended.  When keyword arguments are validated against a class,
    for every field annotated with an enumeration: a supplied value that is
    not the value of a declared member makes validation fail with a
    ValidationError holding the enumeration error for that field ([None]
    counts as supplied unless the field is [Optional]); and whenever
    validation succeeds on a supplied value, that value is a declared
    member and the instance holds it as supplied, so nothing is replaced by
    a default. *)
Theorem enum_membership (now : Z) (m : Model) (f : FieldInfo) (e : EnumDecl)
    (data : attrs) (v : value) :
  m ∈ models -> f ∈ fields m -> annotation f = TEnum e ->
  data !! fname f = Some v ->
  (v = VNone -> optional f = false) ->
  ((∀ s, v = VStr s -> s ∉ member_values e) ->
     ∃ errs, validate now m data = Err (ValidationError errs)
             ∧ (fname f, enum_error (ename e)) ∈ errs)
  ∧ (∀ row, validate now m data = Ok row ->
       row !! fname f = Some v ∧ ∃ s, v = VStr s ∧ s ∈ member_values e).
Proof.
  intros Hm Hf Ht Hv Hnone.
  assert (Hval : validate_field now f (Some v) = check_value f v).
  { destruct v; try done. simpl. by rewrite Hnone. }
  split.
  - intros Hout. eapply validate_rejects; [done| |left].
    rewrite Hv, Hval. unfold check_value.
    by rewrite Ht, (enum_check_type_outside e v Hout).
  - intros row Hrow.
    destruct (validate_Ok_lookup now m data row f Hm Hf Hrow) as (w & Hw & Hr).
    rewrite Hv, Hval in Hw. unfold check_value in Hw. rewrite Ht in Hw.
    destruct (check_type (TEnum e) v) as [|w'] eqn:Hc; [done|].
    apply enum_check_type in Hc as [-> Hmem].
    destruct (check_constraints f v); [|done].
    injection Hw as <-. done.
Qed.

Lemma enum_membership_witness :
  (∃ errs,
     validate 0 Mission done_kwargs = Err (ValidationError errs)
     ∧ ("status", enum_error "MissionStatus") ∈ errs)
  ∧ outputs 0 Mission active_completed_kwargs !! "status"
    = Some (VStr "active")
  ∧ ∃ s, VStr "active" = VStr s ∧ s ∈ member_values MissionStatus.
Proof.
  split.
  - destruct (enum_membership 0 Mission Mission_status MissionStatus
                done_kwargs (VStr "done")) as [Hrej _].
    + in_list.
    + unfold Mission_status. in_list.
    + reflexivity.
    + reflexivity.
    + discriminate.
    + apply Hrej. intros s [= <-] Hin. simpl in Hin.
      each_member Hin; discriminate.
  - destruct (enum_membership 0 Mission Mission_status MissionStatus
                active_completed_kwargs (VStr "active")) as [_ Hacc].
    + in_list.
    + unfold Mission_status. in_list.
    + reflexivity.
    + reflexivity.
    + discriminate.
    + apply Hacc. validated.
Defined.

(** ** Validating again what validation returned *)

Lemma as_decimal_item_idem (kv kv' : string * value) :
  as_decimal_item kv = Some kv' -> as_decimal_item kv' = Some kv'.
Proof.
  unfold as_decimal_item. destruct kv as [k v]; simpl.
  destruct (as_decimal v) as [d|]; simpl; [|done]. by intros [= <-].
Qed.

Lemma mapM_as_decimal_idem (m m' : list (string * value)) :
  mapM as_decimal_item m = Some m' -> mapM as_decimal_item m' = Some m'.
Proof.
  rewrite !mapM_Some. induction 1 as [|kv kv' m m' Hkv _ IH]; [constructor|].
  constructor; [by eapply as_decimal_item_idem | done].
Qed.

Lemma check_type_idem (t : pytype) (v w : value) :
  check_type t v = inr w -> check_type t w = inr w ∧ w ≠ VNone.
Proof.
  destruct t, v; simpl; try discriminate;
    try (intros [= <-]; by split).
  - case_bool_decide as Hs; [|discriminate]. intros [= <-]. simpl.
    by rewrite bool_decide_eq_true_2.
  - destruct (forallb is_str l) eqn:Hl; [|discriminate]. intros [= <-]. simpl.
    by rewrite Hl.
  - destruct (mapM as_decimal_item m) as [m'|] eqn:Hm; [|discriminate].
    intros [= <-]. simpl. by rewrite (mapM_as_decimal_idem m m' Hm).
Qed.

Lemma check_constraints_same (f g : FieldInfo) (w : value) :
  same_constraints f g = true ->
  check_constraints g w = check_constraints f w.
Proof.
  unfold same_constraints. rewrite !andb_true_iff, !bool_decide_eq_true.
  intros [[Hm Hge] Hle].
  unfold check_constraints, check_max_length, check_ge, check_le.
  by rewrite Hm, Hge, Hle.
Qed.

Lemma check_value_again (f g : FieldInfo) (v w : value) :
  annotation g = annotation f -> same_constraints f g = true ->
  check_value f v = inr w ->
  check_value g w = inr w ∧ w ≠ VNone.
Proof.
  intros Ht Hc. unfold check_value. rewrite Ht.
  destruct (check_type (annotation f) v) as [|w'] eqn:Hv; [done|].
  destruct (check_constraints f w') eqn:Hw; [|done]. intros [= <-].
  apply check_type_idem in Hv as [-> Hne].
  by rewrite (check_constraints_same f g w' Hc), Hw.
Qed.

(** ** Constructing an entity from a request shape *)

Lemma shape_field_Some (shape : Model) (g g' : FieldInfo) :
  shape_field shape g = Some g' -> g' ∈ fields shape ∧ fname g' = fname g.
Proof.
  intros [Hin Heq]%find_some. split; [by apply list_elem_of_In|].
  by apply String.eqb_eq.
Qed.

Lemma shape_field_None (shape : Model) (g : FieldInfo) :
  shape_field shape g = None -> fname g ∉ field_names shape.
Proof.
  intros Hnone (g' & Heq & Hin)%list_elem_of_fmap.
  apply list_elem_of_In in Hin.
  pose proof (find_none _ _ Hnone g' Hin) as Hne. simpl in Hne.
  apply String.eqb_neq in Hne. congruence.
Qed.

Lemma datetime_accepted (g : FieldInfo) (t t' : Z) :
  is_accepted (validate_field 0 g (Some (VDatetime t))) = true ->
  ∃ w, validate_field 0 g (Some (VDatetime t')) = inr w.
Proof.
  simpl. unfold check_value.
  destruct (annotation g); simpl; try done.
  unfold check_constraints, check_max_length, check_ge, check_le.
  destruct (max_length g), (ge g), (le g); simpl; eauto.
Qed.

Lemma compatible_accepted (now : Z) (g' g : FieldInfo) (x : option value)
    (v : value) :
  compatible g' g = true ->
  validate_field now g' x = inr v ->
  ∃ w, validate_field now g (Some v) = inr w.
Proof.
  unfold compatible. rewrite !andb_true_iff, bool_decide_eq_true.
  intros [[[Ht Hc] Hopt] Hdef] Hv.
  assert (Hchk : ∀ v0, check_value g' v0 = inr v ->
            ∃ w, validate_field now g (Some v) = inr w).
  { intros v0 [Hw Hne]%(check_value_again g' g); [|done..].
    exists v. destruct v; done. }
  destruct x as [v0|]; simpl in Hv.
  - destruct v0; try by eapply Hchk.
    destruct (optional g') eqn:Ho; [|by eapply Hchk].
    injection Hv as <-. simpl in Hopt. simpl. rewrite Hopt. eauto.
  - unfold accepts_default in Hdef. destruct (default g') as [|dv|].
    + done.
    + injection Hv as <-.
      change (validate_field now g (Some dv))
        with (validate_field 0 g (Some dv)).
      destruct (validate_field 0 g (Some dv)); [done|eauto].
    + injection Hv as <-.
      change (validate_field now g (Some (VDatetime now)))
        with (validate_field 0 g (Some (VDatetime now))).
      by eapply datetime_accepted.
Qed.

(** When the shape validates, the entity constructed from it validates
    too, and every attribute the shape does not expose holds the entity's
    declared default. *)
Lemma construct_from_shape (now : Z) (shape entity : Model) (data d : attrs) :
  shape ∈ models -> entity ∈ models ->
  constructible shape entity = true ->
  validate now shape data = Ok d ->
  ∃ row, construct_from now shape entity data = Ok row
    ∧ ∀ g dv, g ∈ fields entity -> shape_field shape g = None ->
              default g = Default dv -> row !! fname g = Some dv.
Proof.
  intros Hs He Hc Hd. unfold construct_from. rewrite Hd.
  unfold constructible in Hc. rewrite forallb_forall in Hc.
  pose proof Hd as [-> _]%validate_Ok_inv.
  exists (outputs now entity (outputs now shape data)). split.
  - apply validate_accepts, Forall_forall. intros g Hg.
    pose proof (Hc g (proj1 (list_elem_of_In _ _) Hg)) as Hcg.
    unfold accepted.
    destruct (shape_field shape g) as [g'|] eqn:Hsf.
    + apply shape_field_Some in Hsf as [Hin Hname].
      destruct (validate_Ok_lookup now shape data _ g' Hs Hin Hd)
        as (v & Hv & Hlk).
      rewrite <- Hname, Hlk. by eapply compatible_accepted.
    + apply shape_field_None in Hsf.
      rewrite (outputs_lookup_None now data shape _ Hsf). simpl.
      unfold has_default in Hcg. destruct (default g); [done|eauto..].
  - intros g dv Hg Hsf Hdv. apply outputs_lookup;
      [by apply field_names_NoDup | done |].
    apply shape_field_None in Hsf.
    rewrite (outputs_lookup_None now data shape _ Hsf). simpl. by rewrite Hdv.
Qed.

(** What Mission supplies for the attributes MissionCreate leaves out. *)
Lemma mission_defaults_from_create (now : Z) (data d : attrs) :
  validate now MissionCreate data = Ok d ->
  ∃ row, construct_from now MissionCreate Mission data = Ok row
    ∧ row !! "status" = Some (VStr "pending")
    ∧ row !! "progress_percentage" = Some (VDec (Dec.mk 0 (-1)))
    ∧ row !! "actual_completion" = Some VNone.
Proof.
  intros Hd.
  destruct (construct_from_shape now MissionCreate Mission data d)
    as (row & Hrow & Hdef); [in_list | in_list | by vm_compute | done |].
  exists row. split; [done|].
  split; [|split].
  - apply (Hdef (field "status" (TEnum MissionStatus)
                   |> default_ (VStr "pending"))); [in_list|done..].
  - apply (Hdef (field "progress_percentage" TDecimal |> default_ (dec 0 (-1))
                   |> with_ge 0 |> with_le 100)); [in_list|done..].
  - apply (Hdef (field "actual_completion" TDatetime |> Optional
                   |> default_ VNone)); [in_list|done..].
Qed.

(** C9.  A Mission constructed from a validated MissionCreate is built
    (its validation succeeds) with status pending, progress_percentage
    [Decimal("0.0")] and actual_completion [None]: MissionCreate exposes
    none of the three and Mission declares these defaults. *)
Theorem mission_create_defaults (now : Z) (data d : attrs) :
  validate now MissionCreate data = Ok d ->
  ∃ row, construct_from now MissionCreate Mission data = Ok row
    ∧ row !! "status" = Some (VStr "pending")
    ∧ row !! "progress_percentage" = Some (VDec (Dec.mk 0 (-1)))
    ∧ row !! "actual_completion" = Some VNone
    ∧ Forall (λ k, k ∉ field_names MissionCreate)
             ["status"; "progress_percentage"; "actual_completion"].
Proof.
  intros Hd.
  destruct (mission_defaults_from_create now data d Hd)
    as (row & Hrow & Hst & Hpp & Hac).
  exists row. repeat (split; [done|]).
  apply (bool_decide_unpack _). vm_compute. exact I.
Qed.

Lemma mission_create_defaults_witness :
  ∃ row, construct_from 0 MissionCreate Mission mission_kwargs = Ok row
    ∧ row !! "status" = Some (VStr "pending")
    ∧ row !! "progress_percentage" = Some (VDec (Dec.mk 0 (-1)))
    ∧ row !! "actual_completion" = Some VNone
    ∧ Forall (λ k, k ∉ field_names MissionCreate)
             ["status"; "progress_percentage"; "actual_completion"].
Proof.
  apply (mission_create_defaults 0 mission_kwargs
           (outputs 0 MissionCreate mission_kwargs)).
  validated.
Defined.

(** ** Applying an Update shape *)

Lemma patch_field_other (patch row : attrs) (f : FieldInfo) (j : string) :
  fname f ≠ j ∨ unset patch j ->
  patch_field patch row f !! j = row !! j.
Proof.
  unfold patch_field, unset. intros H.
  destruct (decide (fname f = j)) as [Heq|Hne].
  - destruct H as [?|[Hj|Hj]]; [done|..]; rewrite Heq, Hj; done.
  - destruct (patch !! fname f) as [[]|]; try done; by rewrite lookup_insert_ne.
Qed.

Lemma patch_fields_other (fs : list FieldInfo) (patch row : attrs)
    (j : string) :
  j ∉ fname <$> fs ∨ unset patch j ->
  foldl (patch_field patch) row fs !! j = row !! j.
Proof.
  revert row. induction fs as [|f fs IH]; intros row H; [done|].
  simpl. rewrite IH.
  - apply patch_field_other. destruct H as [H|H]; [left|by right].
    intros Heq. apply H. rewrite <- Heq. left.
  - destruct H as [H|H]; [left|by right].
    intros Hin. apply H. by right.
Qed.

Lemma apply_patch_other (shape : Model) (patch row : attrs) (j : string) :
  j ∉ field_names shape ∨ unset patch j ->
  apply_patch shape patch row !! j = row !! j.
Proof. apply patch_fields_other. Qed.

(** An attribute of the shape that the patch sets is written. *)
Lemma apply_patch_set (shape : Model) (patch row : attrs) (k : string)
    (v : value) :
  NoDup (field_names shape) -> k ∈ field_names shape ->
  patch !! k = Some v -> v ≠ VNone ->
  apply_patch shape patch row !! k = Some v.
Proof.
  unfold apply_patch, field_names. intros Hnd Hk Hv Hne. revert row.
  induction (fields shape) as [|f fs IH]; intros row;
    [by apply elem_of_nil in Hk|].
  rewrite fmap_cons in Hnd, Hk. apply NoDup_cons in Hnd as [Hf Hnd].
  simpl. destruct (decide (fname f = k)) as [Heq|Hneq].
  - rewrite patch_fields_other by (left; by rewrite <- Heq).
    unfold patch_field. rewrite Heq, Hv.
    destruct v; try done; by rewrite lookup_insert_eq.
  - apply elem_of_cons in Hk as [Hk|Hk]; [congruence|]. by apply IH.
Qed.

(** ** Missions: completion and status *)

Lemma enum_member_accepted (now : Z) (f : FieldInfo) (e : EnumDecl)
    (s : string) :
  annotation f = TEnum e -> max_length f = None -> s ∈ member_values e ->
  validate_field now f (Some (VStr s)) = inr (VStr s).
Proof.
  intros Ht Hm Hs. simpl. unfold check_value. rewrite Ht. simpl.
  rewrite bool_decide_eq_true_2 by done.
  unfold check_constraints, check_max_length, check_ge, check_le.
  rewrite Hm. by destruct (ge f), (le f).
Qed.

Lemma actual_completion_accepted (now : Z) (ac : value) :
  ac = VNone ∨ (∃ t, ac = VDatetime t) ->
  validate_field now Mission_actual_completion (Some ac) = inr ac.
Proof. by intros [->|[t ->]]. Qed.

(** C4, as stated, fails: a Mission given an actual_completion and no
    status validates, and holds that actual_completion with the default
    status pending. *)
Lemma mission_completion_not_enforced :
  ¬ (∀ now data row,
       validate now Mission data = Ok row ->
       completion_implies_completed row).
Proof.
  intros H.
  assert (Hrow : validate 0 Mission completed_early_kwargs
                 = Ok (outputs 0 Mission completed_early_kwargs))
    by validated.
  specialize (H _ _ _ Hrow 5).
  assert (Hac : outputs 0 Mission completed_early_kwargs !! "actual_completion"
                = Some (VDatetime 5)) by (vm_compute; reflexivity).
  assert (Hst : outputs 0 Mission completed_early_kwargs !! "status"
                = Some (VStr "pending")) by (vm_compute; reflexivity).
  specialize (H Hac). rewrite Hst in H. discriminate H.
Qed.

(** C4, amended.  Mission declares no constraint between actual_completion
    and status.  Given any member of MissionStatus as status and anything
    an actual_completion can be ([None] or a datetime), a Mission whose
    other fields are accepted validates, and both the validated and the
    constructed Mission hold the two as given.  MissionCreate and
    MissionUpdate have no actual_completion field. *)
Theorem mission_completion_unconstrained (now : Z) (data : attrs)
    (s : string) (ac : value) :
  s ∈ member_values MissionStatus ->
  ac = VNone ∨ (∃ t, ac = VDatetime t) ->
  data !! "status" = Some (VStr s) ->
  data !! "actual_completion" = Some ac ->
  (∀ g, g ∈ fields Mission -> fname g ≠ "status" ->
        fname g ≠ "actual_completion" -> accepted now data g) ->
  (∃ row, validate now Mission data = Ok row
          ∧ row !! "status" = Some (VStr s)
          ∧ row !! "actual_completion" = Some ac)
  ∧ (∃ row, instantiate now Mission data = Ok row
            ∧ row !! "status" = Some (VStr s)
            ∧ row !! "actual_completion" = Some ac)
  ∧ ("actual_completion" ∉ field_names MissionCreate)
  ∧ ("actual_completion" ∉ field_names MissionUpdate).
Proof.
  intros Hs Hac Hst Hco Hothers.
  assert (Hm : Mission ∈ models) by in_list.
  pose proof (field_names_NoDup Mission Hm) as Hnd.
  assert (Hfs : Mission_status ∈ fields Mission)
    by (unfold Mission_status; in_list).
  assert (Hfc : Mission_actual_completion ∈ fields Mission)
    by (unfold Mission_actual_completion; in_list).
  assert (Hvs : validate_field now Mission_status (data !! "status")
                = inr (VStr s)).
  { rewrite Hst. by apply (enum_member_accepted now _ MissionStatus). }
  assert (Hvc : validate_field now Mission_actual_completion
                  (data !! "actual_completion") = inr ac).
  { rewrite Hco. by apply actual_completion_accepted. }
  split; [|split; [|split]].
  - exists (outputs now Mission data). split; [|split].
    + apply validate_accepts, Forall_forall. intros g Hg.
      destruct (decide (fname g = "status")) as [Heq|Hne].
      { rewrite (field_by_name (fields Mission) g Mission_status Hnd Hg Hfs Heq).
        by exists (VStr s). }
      destruct (decide (fname g = "actual_completion")) as [Heq'|Hne'].
      { rewrite (field_by_name (fields Mission) g Mission_actual_completion
                   Hnd Hg Hfc Heq').
        by exists ac. }
      by apply Hothers.
    + exact (outputs_lookup now data Mission Mission_status _ Hnd Hfs Hvs).
    + exact (outputs_lookup now data Mission Mission_actual_completion _
               Hnd Hfc Hvc).
  - exists (table_construct now Mission data).
    split; [by apply (instantiate_table now Mission data "missions")|].
    split.
    + exact (table_construct_lookup now Mission data Mission_status _
               Hnd Hfs Hst).
    + exact (table_construct_lookup now Mission data
               Mission_actual_completion _ Hnd Hfc Hco).
  - apply (bool_decide_unpack _). vm_compute. exact I.
  - apply (bool_decide_unpack _). vm_compute. exact I.
Qed.

Lemma mission_completion_unconstrained_witness :
  (∃ row, validate 0 Mission active_completed_kwargs = Ok row
          ∧ row !! "status" = Some (VStr "active")
          ∧ row !! "actual_completion" = Some (VDatetime 5))
  ∧ (∃ row, instantiate 0 Mission active_completed_kwargs = Ok row
            ∧ row !! "status" = Some (VStr "active")
            ∧ row !! "actual_completion" = Some (VDatetime 5))
  ∧ ("actual_completion" ∉ field_names MissionCreate)
  ∧ ("actual_completion" ∉ field_names MissionUpdate).
Proof.
  apply (mission_completion_unconstrained 0 active_completed_kwargs
           "active" (VDatetime 5)).
  - simpl. in_list.
  - right. by exists 5.
  - reflexivity.
  - reflexivity.
  - intros g Hg Hn1 Hn2. simpl in Hg. each_member Hg;
      first [ by destruct Hn1 | by destruct Hn2
            | eexists; vm_compute; reflexivity ].
Defined.

(** ** Update shapes leave the other attributes alone *)

Lemma update_shapes_declared :
  update_shapes
  = [(Glyph, GlyphUpdate); (Mission, MissionUpdate);
     (QuantumShield, QuantumShieldUpdate)].
Proof. reflexivity. Qed.

Lemma unset_field_output (now : Z) (data : attrs) (f : FieldInfo) :
  optional_unset f = true -> unset data (fname f) ->
  validate_field now f (data !! fname f) = inr VNone.
Proof.
  unfold optional_unset. intros [Ho Hd]%andb_true_iff [Hj|Hj]; rewrite Hj; simpl.
  - destruct (default f) as [|[]|]; done.
  - by rewrite Ho.
Qed.

Lemma update_shape_facts (e shape : Model) :
  (e, shape) ∈ update_shapes ->
  shape ∈ models ∧ forallb optional_unset (fields shape) = true
  ∧ is_Some (tablename e).
Proof.
  rewrite update_shapes_declared. intros H.
  each_member H; injection H as -> ->;
    (split; [in_list | split; [reflexivity | by eexists]]).
Qed.

(** Where the keyword arguments leave an attribute unset, so does the
    validated Update shape. *)
Lemma validated_patch_unset (now : Z) (shape : Model) (data patch : attrs)
    (j : string) :
  shape ∈ models -> forallb optional_unset (fields shape) = true ->
  validate now shape data = Ok patch ->
  unset data j -> unset patch j.
Proof.
  intros Hs Hall Hp Hj.
  destruct (decide (j ∈ field_names shape)) as [Hin|Hout].
  - apply list_elem_of_fmap in Hin as (f & -> & Hf).
    destruct (validate_Ok_lookup now shape data patch f Hs Hf Hp)
      as (v & Hv & Hlk).
    rewrite forallb_forall in Hall.
    rewrite unset_field_output in Hv;
      [|by apply Hall, list_elem_of_In | done].
    injection Hv as <-. by right.
  - apply validate_Ok_inv in Hp as [-> _]. left.
    by apply outputs_lookup_None.
Qed.

(** C6.  For an entity with an Update shape (Mission with MissionUpdate
    among them), a stored record and keyword arguments that set only the
    attribute [k]: when the Update shape validates, the update succeeds,
    the record is stored, every attribute other than [k] holds the value it
    had, and [k] holds the value the shape carries for it. *)
Theorem update_frame (now : Z) (s : Store) (e shape : Model) (t : string)
    (i : Z) (row data patch : attrs) (k : string) :
  (e, shape) ∈ update_shapes -> tablename e = Some t ->
  rows s t !! i = Some row ->
  (∀ j, j ≠ k -> unset data j) ->
  validate now shape data = Ok patch ->
  ∃ s' row', update now s e shape i data = Ok (s', row')
    ∧ rows s' t !! i = Some row'
    ∧ (∀ j, j ≠ k -> row' !! j = row !! j)
    ∧ (∀ v, k ∈ field_names shape -> patch !! k = Some v -> v ≠ VNone ->
            row' !! k = Some v).
Proof.
  intros (Hs & Hall & _)%update_shape_facts Ht Hrow Hunset Hp.
  unfold update. rewrite Ht, Hp, Hrow. eexists _, _. split; [done|].
  split; [|split].
  - unfold rows at 1. by rewrite lookup_insert_eq, lookup_insert_eq.
  - intros j Hj. apply apply_patch_other. right.
    eapply validated_patch_unset; eauto.
  - intros v Hk Hv Hne. apply apply_patch_set; [|done..].
    by apply field_names_NoDup.
Qed.

Lemma update_frame_witness :
  ∃ (s' : Store) (row' : attrs),
    update 1 relic_store Mission MissionUpdate 1 complete_kwargs = Ok (s', row')
    ∧ rows s' "missions" !! 1 = Some row'
    ∧ (∀ j, j ≠ "status" -> row' !! j = stored_relic !! j)
    ∧ (∀ v, "status" ∈ field_names MissionUpdate ->
            complete_patch !! "status" = Some v -> v ≠ VNone ->
            row' !! "status" = Some v).
Proof.
  apply (update_frame 1 relic_store Mission MissionUpdate "missions" 1
           stored_relic complete_kwargs complete_patch "status").
  - rewrite update_shapes_declared. in_list.
  - reflexivity.
  - unfold rows, relic_store. rewrite lookup_singleton_eq.
    apply lookup_singleton_eq.
  - intros j Hj. left. unfold complete_kwargs.
    rewrite lookup_insert_ne by congruence. apply lookup_empty.
  - unfold complete_patch. validated.
Defined.

(** ** Creating records *)

Lemma next_id_above (tbl : gmap Z attrs) (k : Z) :
  is_Some (tbl !! k) -> k < next_id tbl.
Proof.
  unfold next_id.
  pose (P := λ (r : Z) (m : gmap Z attrs), ∀ k, is_Some (m !! k) -> k <= r).
  assert (HP : P (map_fold (λ k _ acc, Z.max k acc) 0 tbl) tbl).
  { apply (map_fold_weak_ind P); unfold P.
    - intros j [x Hx]. by rewrite lookup_empty in Hx.
    - intros i x m r _ IH j Hj.
      destruct (decide (i = j)) as [->|Hne]; [lia|].
      rewrite lookup_insert_ne in Hj by done. specialize (IH j Hj). lia. }
  intros Hk. specialize (HP k Hk). lia.
Qed.

Lemma next_id_fresh (tbl : gmap Z attrs) : tbl !! next_id tbl = None.
Proof.
  destruct (tbl !! next_id tbl) as [r|] eqn:E; [|done].
  pose proof (next_id_above tbl (next_id tbl) (mk_is_Some _ _ E)). lia.
Qed.

Lemma store_row_lookup (s : Store) (t : string) (i : Z) (row : attrs) :
  rows (store_row s t i row).1.1 t !! i = Some (store_row s t i row).2.
Proof.
  unfold store_row, rows at 1. simpl.
  by rewrite lookup_insert_eq, lookup_insert_eq.
Qed.

(** What [create] does once the record has validated. *)
Lemma create_validated (now : Z) (s : Store) (m : Model) (t : string)
    (data row : attrs) :
  tablename m = Some t -> validate now m data = Ok row ->
  create now s m data
  = match dangling s row (fields m) with
    | Some c => Err (ReferenceError c)
    | None =>
        match row !! "id" with
        | Some (VInt i) =>
            if bool_decide (is_Some (rows s t !! i))
            then Err (IntegrityError "id")
            else Ok (store_row s t i row)
        | _ => Ok (store_row s t (next_id (rows s t)) row)
        end
    end.
Proof. intros Ht Hv. unfold create. by rewrite Ht, Hv. Qed.

Lemma create_Ok_inv (now : Z) (s s' : Store) (m : Model) (data row' : attrs)
    (i : Z) :
  create now s m data = Ok (s', i, row') ->
  ∃ t row, tablename m = Some t ∧ validate now m data = Ok row
    ∧ dangling s row (fields m) = None
    ∧ (s', i, row') = store_row s t i row.
Proof.
  unfold create. destruct (tablename m) as [t|]; [|done].
  destruct (validate now m data) as [row|]; [|done].
  destruct (dangling s row (fields m)) eqn:Hd; [done|].
  intros H. exists t, row. repeat (split; [done|]).
  destruct (row !! "id") as [[]|]; try (by injection H as <- <- <-).
  case_bool_decide; [done|]. by injection H as <- <- <-.
Qed.

(** ** Required references *)

(** The required foreign keys the tables declare are exactly these. *)
Lemma required_references_declared :
  (e ← entities;
   f ← fields e;
   match foreign_key f, optional f with
   | Some (t, _), false => [(mname e, fname f, t)]
   | _, _ => []
   end)
  = (λ r, (mname r.1.1, r.1.2, r.2)) <$> required_references.
Proof. reflexivity. Qed.

Lemma int_field_output (now : Z) (f : FieldInfo) (i : Z) (v : value) :
  annotation f = TInt ->
  validate_field now f (Some (VInt i)) = inr v -> v = VInt i.
Proof.
  intros Ht. simpl. unfold check_value. rewrite Ht. simpl.
  destruct (check_constraints f (VInt i)); [|done]. by intros [= <-].
Qed.

Lemma default_None_output (now : Z) (f : FieldInfo) (v : value) :
  default f = Default VNone ->
  validate_field now f None = inr v -> v = VNone.
Proof. intros Hd. simpl. rewrite Hd. by intros [= <-]. Qed.

(** The attributes [create] looks at, for the three classes. *)
Lemma reference_attrs (now : Z) (m : Model) (col t : string)
    (data row : attrs) (i : Z) :
  (m, col, t) ∈ required_references ->
  validate now m data = Ok row ->
  data !! col = Some (VInt i) ->
  row !! col = Some (VInt i)
  ∧ (data !! "id" = None -> row !! "id" = Some VNone)
  ∧ (data !! "glyph_id" = None ->
     row !! "glyph_id" = None ∨ row !! "glyph_id" = Some VNone).
Proof.
  intros Hm Hrow Hcol. unfold required_references in Hm.
  each_member Hm; injection Hm as -> -> ->.
  - destruct (validate_Ok_lookup now TransformationStep data row
      (field "protocol_id" TInt
         |> with_foreign_key "transformation_protocols" "id"))
      as (v & Hv & Hlk); [in_list | in_list | done |].
    destruct (validate_Ok_lookup now TransformationStep data row
      (field "id" TInt |> Optional |> default_ VNone |> with_primary_key))
      as (v1 & Hv1 & Hlk1); [in_list | in_list | done |].
    destruct (validate_Ok_lookup now TransformationStep data row
      (field "glyph_id" TInt |> Optional |> default_ VNone
         |> with_foreign_key "glyphs" "id"))
      as (v2 & Hv2 & Hlk2); [in_list | in_list | done |].
    simpl fname in *. rewrite Hcol in Hv.
    apply int_field_output in Hv as ->; [|done].
    split; [done|]. split.
    + intros Hid. rewrite Hid in Hv1.
      by apply default_None_output in Hv1 as ->.
    + intros Hg. rewrite Hg in Hv2.
      apply default_None_output in Hv2 as ->; [by right|done].
  - destruct (validate_Ok_lookup now MissionLogEntry data row
      (field "mission_id" TInt |> with_foreign_key "missions" "id"))
      as (v & Hv & Hlk); [in_list | in_list | done |].
    destruct (validate_Ok_lookup now MissionLogEntry data row
      (field "id" TInt |> Optional |> default_ VNone |> with_primary_key))
      as (v1 & Hv1 & Hlk1); [in_list | in_list | done |].
    simpl fname in *. rewrite Hcol in Hv.
    apply int_field_output in Hv as ->; [|done].
    split; [done|]. split.
    + intros Hid. rewrite Hid in Hv1.
      by apply default_None_output in Hv1 as ->.
    + intros _. left. apply validate_Ok_inv in Hrow as [-> _].
      apply outputs_lookup_None. apply (bool_decide_unpack _).
      vm_compute. exact I.
  - destruct (validate_Ok_lookup now HealingModule data row
      (field "shield_id" TInt |> with_foreign_key "quantum_shields" "id"))
      as (v & Hv & Hlk); [in_list | in_list | done |].
    destruct (validate_Ok_lookup now HealingModule data row
      (field "id" TInt |> Optional |> default_ VNone |> with_primary_key))
      as (v1 & Hv1 & Hlk1); [in_list | in_list | done |].
    simpl fname in *. rewrite Hcol in Hv.
    apply int_field_output in Hv as ->; [|done].
    split; [done|]. split.
    + intros Hid. rewrite Hid in Hv1.
      by apply default_None_output in Hv1 as ->.
    + intros _. left. apply validate_Ok_inv in Hrow as [-> _].
      apply outputs_lookup_None. apply (bool_decide_unpack _).
      vm_compute. exact I.
Qed.

(** Which column [dangling] reports, for the three classes: the required
    reference when it does not resolve, none when it resolves and no glyph
    is referenced. *)
Lemma reference_dangling (s : Store) (m : Model) (col t : string)
    (row : attrs) (i : Z) :
  (m, col, t) ∈ required_references ->
  row !! col = Some (VInt i) ->
  (rows s t !! i = None -> dangling s row (fields m) = Some col)
  ∧ (is_Some (rows s t !! i) ->
     row !! "glyph_id" = None ∨ row !! "glyph_id" = Some VNone ->
     dangling s row (fields m) = None).
Proof.
  intros Hm Hcol. unfold required_references in Hm.
  each_member Hm; injection Hm as -> -> ->;
    unfold dangling, resolves; simpl; rewrite Hcol.
  - split.
    + intros ->. rewrite bool_decide_eq_false_2; [done|]. by intros [? ?].
    + intros Hi Hg. rewrite bool_decide_eq_true_2 by done. simpl.
      by destruct Hg as [-> | ->].
  - split.
    + intros ->. rewrite bool_decide_eq_false_2; [done|]. by intros [? ?].
    + intros Hi _. by rewrite bool_decide_eq_true_2 by done.
  - split.
    + intros ->. rewrite bool_decide_eq_false_2; [done|]. by intros [? ?].
    + intros Hi _. by rewrite bool_decide_eq_true_2 by done.
Qed.

(** C5.  For a TransformationStep, a MissionLogEntry or a HealingModule
    that validates and carries the parent id [i] in its required reference
    column: if the parent table has no row [i], [create] fails with
    ReferenceError on that column; if it has one, and the record carries no
    id of its own and no glyph_id, [create] succeeds, the record is stored
    under a new id, and its glyph_id is not set. *)
Theorem required_reference_enforced (now : Z) (s : Store) (m : Model)
    (col t : string) (data row : attrs) (i : Z) :
  (m, col, t) ∈ required_references ->
  validate now m data = Ok row ->
  data !! col = Some (VInt i) ->
  (rows s t !! i = None -> create now s m data = Err (ReferenceError col))
  ∧ (is_Some (rows s t !! i) ->
     data !! "id" = None -> data !! "glyph_id" = None ->
     ∃ tbl s' k row',
       tablename m = Some tbl
       ∧ create now s m data = Ok (s', k, row')
       ∧ rows s tbl !! k = None
       ∧ rows s' tbl !! k = Some row'
       ∧ row' !! col = Some (VInt i)
       ∧ (row' !! "glyph_id" = None ∨ row' !! "glyph_id" = Some VNone)).
Proof.
  intros Hm Hrow Hcol.
  destruct (reference_attrs now m col t data row i Hm Hrow Hcol)
    as (Hrc & Hid & Hglyph).
  destruct (reference_dangling s m col t row i Hm Hrc) as [Hdang Hres].
  assert (Htbl : ∃ tbl, tablename m = Some tbl ∧ col ≠ "id"
                        ∧ "glyph_id" ≠ "id").
  { unfold required_references in Hm.
    each_member Hm; injection Hm as -> -> ->; by eexists. }
  destruct Htbl as (tbl & Htbl & Hne & Hne').
  rewrite (create_validated now s m tbl data row Htbl Hrow).
  split.
  - intros Hnone. by rewrite (Hdang Hnone).
  - intros Hsome Hnoid Hnoglyph.
    rewrite (Hres Hsome (Hglyph Hnoglyph)), (Hid Hnoid).
    eexists tbl, _, _, _. split; [done|]. split; [reflexivity|].
    split; [apply next_id_fresh|].
    split; [apply store_row_lookup|]. simpl.
    rewrite !lookup_insert_ne by done. split; [done|]. by apply Hglyph.
Qed.

Lemma solar_protocol_stored :
  rows solar_store "transformation_protocols" !! 1 = Some solar_protocol.
Proof.
  unfold rows, solar_store. rewrite lookup_singleton_eq.
  apply lookup_singleton_eq.
Qed.

Lemma no_seventh_protocol :
  rows solar_store "transformation_protocols" !! 7 = None.
Proof.
  unfold rows, solar_store. rewrite lookup_singleton_eq.
  by apply lookup_singleton_ne.
Qed.

Lemma required_reference_enforced_witness :
  create 0 solar_store TransformationStep orphan_kwargs
  = Err (ReferenceError "protocol_id")
  ∧ ∃ tbl s' k row',
      tablename TransformationStep = Some tbl
      ∧ create 0 solar_store TransformationStep align_kwargs = Ok (s', k, row')
      ∧ rows solar_store tbl !! k = None
      ∧ rows s' tbl !! k = Some row'
      ∧ row' !! "protocol_id" = Some (VInt 1)
      ∧ (row' !! "glyph_id" = None ∨ row' !! "glyph_id" = Some VNone).
Proof.
  split.
  - apply (required_reference_enforced 0 solar_store TransformationStep
             "protocol_id" "transformation_protocols" orphan_kwargs
             (outputs 0 TransformationStep orphan_kwargs) 7).
    + unfold required_references. in_list.
    + validated.
    + reflexivity.
    + exact no_seventh_protocol.
  - apply (required_reference_enforced 0 solar_store TransformationStep
             "protocol_id" "transformation_protocols" align_kwargs
             (outputs 0 TransformationStep align_kwargs) 1).
    + unfold required_references. in_list.
    + validated.
    + reflexivity.
    + rewrite solar_protocol_stored. eexists. reflexivity.
    + reflexivity.
    + reflexivity.
Defined.

(** ** Mission log entries *)

(** Two sets of keyword arguments that agree outside [k0] give instances
    that agree outside [k0]. *)
Lemma outputs_agree (now : Z) (m : Model) (d1 d2 : attrs) (k0 k : string) :
  (∀ j, j ≠ k0 -> d1 !! j = d2 !! j) -> k ≠ k0 ->
  outputs now m d1 !! k = outputs now m d2 !! k.
Proof.
  intros Hd Hk. unfold outputs.
  induction (fields m) as [|f fs IH]; [done|].
  assert (Hcons : ∀ d,
    (list_to_map (omap (field_output now d) (f :: fs)) : attrs) !! k
    = match validate_field now f (d !! fname f) with
      | inr v => <[fname f := v]>
                   (list_to_map (omap (field_output now d) fs) : attrs) !! k
      | inl _ => (list_to_map (omap (field_output now d) fs) : attrs) !! k
      end).
  { intros d. simpl. unfold field_output at 1.
    by destruct (validate_field now f (d !! fname f)). }
  rewrite !Hcons.
  destruct (decide (fname f = k0)) as [Heq|Hne].
  - destruct (validate_field now f (d1 !! fname f)),
             (validate_field now f (d2 !! fname f));
      rewrite ?lookup_insert_ne by congruence; done.
  - rewrite (Hd _ Hne).
    destruct (validate_field now f (d2 !! fname f)); [done|].
    destruct (decide (fname f = k)) as [->|Hne'].
    + by rewrite !lookup_insert_eq.
    + by rewrite !lookup_insert_ne.
Qed.

Lemma dangling_agree (s : Store) (r1 r2 : attrs) (fs : list FieldInfo) :
  (∀ f, f ∈ fs -> is_Some (foreign_key f) -> r1 !! fname f = r2 !! fname f) ->
  dangling s r1 fs = dangling s r2 fs.
Proof.
  unfold dangling. induction fs as [|f fs IH]; intros H; [done|]. simpl.
  assert (Hres : resolves s r1 f = resolves s r2 f).
  { unfold resolves. destruct (foreign_key f) as [[t c]|] eqn:Hfk; [|done].
    rewrite (H f); [done | left | by rewrite Hfk]. }
  rewrite Hres. destruct (resolves s r2 f); simpl; [|done].
  apply IH. intros g Hg. apply H. by right.
Qed.

Lemma progress_delta_accepted (now : Z) (v : value) (d : Decimal) :
  as_decimal v = Some d ->
  validate_field now MissionLogEntry_progress_delta (Some v) = inr (VDec d).
Proof.
  intros Hd.
  assert (Hc : check_value MissionLogEntry_progress_delta v = inr (VDec d)).
  { unfold check_value. simpl. by rewrite Hd. }
  destruct v; simpl in Hd; try discriminate; exact Hc.
Qed.

(** C10, amended.  Take keyword arguments from which a MissionLogEntry is
    created when progress_delta is left out.  The stored entry then holds
    [Decimal("0.0")], and with any finite decimal (or int) as
    progress_delta, whatever its sign and size, the entry is created in the
    same store under the same id: the new store holds it under that id, it
    holds that decimal and agrees with the first entry on every other
    attribute, and the stored missions are as they were.  The store, and so
    the mission referred to and its progress_percentage, is arbitrary. *)
Theorem progress_delta_unbounded (now : Z) (s s0 : Store) (data row0 : attrs)
    (i0 : Z) (v : value) (d : Decimal) :
  create now s MissionLogEntry (delete "progress_delta" data) = Ok (s0, i0, row0) ->
  as_decimal v = Some d ->
  row0 !! "progress_delta" = Some (VDec (Dec.mk 0 (-1)))
  ∧ ∃ s' row,
      create now s MissionLogEntry (<["progress_delta" := v]> data)
      = Ok (s', i0, row)
      ∧ rows s' "mission_log_entries" !! i0 = Some row
      ∧ rows s' "missions" = rows s "missions"
      ∧ row !! "progress_delta" = Some (VDec d)
      ∧ ∀ k, k ≠ "progress_delta" -> row !! k = row0 !! k.
Proof.
  intros Hc Hd.
  set (d0 := delete "progress_delta" data) in *.
  set (d1 := <["progress_delta" := v]> data).
  assert (Hagree : ∀ j, j ≠ "progress_delta" -> d1 !! j = d0 !! j).
  { intros j Hj. unfold d0, d1.
    by rewrite lookup_insert_ne, lookup_delete_ne. }
  pose proof Hc as (t & r0 & Ht & Hr0 & _ & _)%create_Ok_inv.
  injection Ht as <-.
  rewrite (create_validated now s MissionLogEntry _ d0 r0 eq_refl Hr0) in Hc.
  pose proof Hr0 as [Hout0 Hall0]%validate_Ok_inv.
  assert (Hr1 : validate now MissionLogEntry d1
                = Ok (outputs now MissionLogEntry d1)).
  { apply validate_accepts, Forall_forall. intros g Hg.
    rewrite Forall_forall in Hall0. specialize (Hall0 g Hg).
    simpl in Hg. each_member Hg; unfold accepted in *; simpl fname in *;
      try (rewrite Hagree by done; exact Hall0).
    exists (VDec d). unfold d1. rewrite lookup_insert_eq.
    by apply progress_delta_accepted. }
  set (r1 := outputs now MissionLogEntry d1) in *.
  assert (Hrows : ∀ k, k ≠ "progress_delta" -> r1 !! k = r0 !! k).
  { intros k Hk. rewrite Hout0.
    by apply (outputs_agree now MissionLogEntry d1 d0 "progress_delta" k). }
  assert (Hpd0 : r0 !! "progress_delta" = Some (VDec (Dec.mk 0 (-1)))).
  { rewrite Hout0.
    apply (outputs_lookup now d0 MissionLogEntry MissionLogEntry_progress_delta);
      [apply field_names_NoDup; in_list | in_list |].
    simpl fname. unfold d0. by rewrite lookup_delete_eq. }
  assert (Hpd1 : r1 !! "progress_delta" = Some (VDec d)).
  { apply (outputs_lookup now d1 MissionLogEntry MissionLogEntry_progress_delta);
      [apply field_names_NoDup; in_list | in_list |].
    simpl fname. unfold d1. rewrite lookup_insert_eq.
    by apply progress_delta_accepted. }
  assert (Hstored : ∀ i,
    (store_row s "mission_log_entries" i r0).2 !! "progress_delta"
      = Some (VDec (Dec.mk 0 (-1)))
    ∧ (store_row s "mission_log_entries" i r1).2 !! "progress_delta"
      = Some (VDec d)
    ∧ ∀ k, k ≠ "progress_delta" ->
        (store_row s "mission_log_entries" i r1).2 !! k
        = (store_row s "mission_log_entries" i r0).2 !! k).
  { intros i. simpl. rewrite !lookup_insert_ne by done.
    split; [done|]. split; [done|]. intros k Hk.
    destruct (decide (k = "id")) as [->|Hid].
    - by rewrite !lookup_insert_eq.
    - rewrite !lookup_insert_ne by done. by apply Hrows. }
  rewrite (create_validated now s MissionLogEntry _ d1 r1 eq_refl Hr1).
  rewrite (dangling_agree s r1 r0).
  2:{ intros f Hf Hfk. simpl in Hf.
      each_member Hf; simpl in Hfk; try (by destruct Hfk).
      by apply Hrows. }
  rewrite (Hrows "id") by done.
  assert (Hfin : ∀ i, Ok (store_row s "mission_log_entries" i r0)
                      = Ok (s0, i0, row0) ->
            row0 !! "progress_delta" = Some (VDec (Dec.mk 0 (-1)))
            ∧ ∃ s' row,
                Ok (store_row s "mission_log_entries" i r1) = Ok (s', i0, row)
                ∧ rows s' "mission_log_entries" !! i0 = Some row
                ∧ rows s' "missions" = rows s "missions"
                ∧ row !! "progress_delta" = Some (VDec d)
                ∧ ∀ k, k ≠ "progress_delta" -> row !! k = row0 !! k).
  { intros i Hi. destruct (Hstored i) as (H0 & H1 & Hk).
    injection Hi as <- <- <-. split; [exact H0|].
    eexists _, _. split; [reflexivity|].
    split; [exact (store_row_lookup s "mission_log_entries" i r1)|].
    split; [|split; [exact H1 | exact Hk]].
    unfold rows at 1. by rewrite lookup_insert_ne. }
  destruct (dangling s r0 (fields MissionLogEntry)); [done|].
  destruct (r0 !! "id") as [[]|]; try (by apply Hfin).
  case_bool_decide; [done | by apply Hfin].
Qed.

Lemma halfway_created :
  create 0 relic_store MissionLogEntry (delete "progress_delta" halfway_kwargs)
  = Ok (<["mission_log_entries" :=
            <[1 := <["id" := VInt 1]> halfway_entry]>
              (rows relic_store "mission_log_entries")]> relic_store,
        1, <["id" := VInt 1]> halfway_entry).
Proof.
  rewrite (create_validated 0 relic_store MissionLogEntry
             "mission_log_entries" _ halfway_entry eq_refl)
    by (unfold halfway_entry; validated).
  assert (dangling relic_store halfway_entry (fields MissionLogEntry) = None)
    as -> by (vm_compute; reflexivity).
  assert (halfway_entry !! "id" = Some VNone) as ->
    by (vm_compute; reflexivity).
  assert (next_id (rows relic_store "mission_log_entries") = 1) as ->
    by (vm_compute; reflexivity).
  reflexivity.
Qed.

(** C10, as stated, fails: [Decimal("Infinity")] is a decimal value, and
    a MissionLogEntry with it as progress_delta does not validate, so it is
    not created. *)
Lemma progress_delta_not_every_decimal :
  ¬ (∀ now s data s0 i0 row0 v,
       create now s MissionLogEntry (delete "progress_delta" data)
       = Ok (s0, i0, row0) ->
       is_decimal_value v = true ->
       ∃ s' i row,
         create now s MissionLogEntry (<["progress_delta" := v]> data)
         = Ok (s', i, row)).
Proof.
  intros H.
  destruct (H 0 relic_store halfway_kwargs _ _ _ (VNonFinite Infinity)
              halfway_created eq_refl) as (s' & i & row & Hc).
  apply create_Ok_inv in Hc as (t & r & _ & Hr & _).
  destruct (validate_rejects 0
              (<["progress_delta" := VNonFinite Infinity]> halfway_kwargs)
              MissionLogEntry MissionLogEntry_progress_delta
              [finite_number] finite_number) as (errs & He & _).
  - in_list.
  - reflexivity.
  - left.
  - rewrite He in Hr. discriminate Hr.
Qed.

Lemma progress_delta_unbounded_witness :
  <["id" := VInt 1]> halfway_entry !! "progress_delta"
  = Some (VDec (Dec.mk 0 (-1)))
  ∧ ∃ (s' : Store) (row : attrs),
      create 0 relic_store MissionLogEntry
        (<["progress_delta" := dec (-2505) (-1)]> halfway_kwargs)
      = Ok (s', 1, row)
      ∧ rows s' "mission_log_entries" !! 1 = Some row
      ∧ rows s' "missions" = rows relic_store "missions"
      ∧ row !! "progress_delta" = Some (dec (-2505) (-1))
      ∧ ∀ k, k ≠ "progress_delta" ->
             row !! k = <["id" := VInt 1]> halfway_entry !! k.
Proof.
  exact (progress_delta_unbounded 0 relic_store _ halfway_kwargs _ 1
           (dec (-2505) (-1)) (Dec.mk (-2505) (-1))
           halfway_created eq_refl).
Defined.

(** ** Step order *)

Lemma align_created :
  create 0 solar_store TransformationStep align_kwargs
  = Ok (aligned_store, 1, <["id" := VInt 1]> align_step).
Proof.
  rewrite (create_validated 0 solar_store TransformationStep
             "transformation_steps" _ align_step eq_refl)
    by (unfold align_step; validated).
  assert (dangling solar_store align_step (fields TransformationStep) = None)
    as -> by (vm_compute; reflexivity).
  assert (align_step !! "id" = Some VNone) as -> by (vm_compute; reflexivity).
  assert (next_id (rows solar_store "transformation_steps") = 1) as ->
    by (vm_compute; reflexivity).
  reflexivity.
Qed.

Lemma align_created_again :
  create 0 aligned_store TransformationStep align_kwargs
  = Ok (aligned_twice_store, 2, <["id" := VInt 2]> align_step).
Proof.
  rewrite (create_validated 0 aligned_store TransformationStep
             "transformation_steps" _ align_step eq_refl)
    by (unfold align_step; validated).
  assert (dangling aligned_store align_step (fields TransformationStep) = None)
    as -> by (vm_compute; reflexivity).
  assert (align_step !! "id" = Some VNone) as -> by (vm_compute; reflexivity).
  assert (next_id (rows aligned_store "transformation_steps") = 2) as ->
    by (vm_compute; reflexivity).
  reflexivity.
Qed.

Lemma steps_aligned_store :
  steps aligned_store = {[1 := <["id" := VInt 1]> align_step]}.
Proof.
  unfold steps, aligned_store, rows at 1. rewrite lookup_insert_eq.
  unfold steps, rows, solar_store. by rewrite lookup_singleton_ne.
Qed.

Lemma steps_aligned_twice_store :
  steps aligned_twice_store
  = <[2 := <["id" := VInt 2]> align_step]>
      {[1 := <["id" := VInt 1]> align_step]}.
Proof.
  unfold steps at 1, aligned_twice_store, rows at 1.
  by rewrite lookup_insert_eq, steps_aligned_store.
Qed.

(** C2, as stated, fails: with one step of order 1 stored for protocol 1,
    creating another step of order 1 for the same protocol succeeds. *)
Lemma step_order_not_unique :
  ¬ (∀ now s data s' i row,
       unique_step_order s ->
       create now s TransformationStep data = Ok (s', i, row) ->
       unique_step_order s').
Proof.
  intros H.
  assert (Huniq : unique_step_order aligned_store).
  { intros i j r1 r2. rewrite steps_aligned_store.
    intros [-> _]%lookup_singleton_Some [-> _]%lookup_singleton_Some. done. }
  specialize (H 0 aligned_store align_kwargs _ _ _ Huniq align_created_again
                1 2 (<["id" := VInt 1]> align_step)
                (<["id" := VInt 2]> align_step)).
  rewrite steps_aligned_twice_store in H.
  assert (1 = 2); [|lia].
  apply H.
  - rewrite lookup_insert_ne by lia. apply lookup_singleton_eq.
  - apply lookup_insert_eq.
  - by rewrite !lookup_insert_ne.
  - by rewrite !lookup_insert_ne.
Qed.

(** C2, amended.  Every TransformationStep that validates holds a
    step_order that is an integer of at least 1; a step_order given as an
    integer is held as given. *)
Theorem step_order_at_least_one (now : Z) (data row : attrs) :
  validate now TransformationStep data = Ok row ->
  (∃ n, row !! "step_order" = Some (VInt n) ∧ 1 <= n)
  ∧ (∀ n, data !! "step_order" = Some (VInt n) ->
          row !! "step_order" = Some (VInt n)).
Proof.
  intros Hr.
  destruct (validate_Ok_lookup now TransformationStep data row
              TransformationStep_step_order)
    as (v & Hv & Hlk); [in_list | unfold TransformationStep_step_order; in_list
                        | done |].
  simpl fname in *.
  assert (Hout : ∃ n, v = VInt n ∧ 1 <= n
                      ∧ ∀ k, data !! "step_order" = Some (VInt k) -> k = n).
  { destruct (data !! "step_order") as [[| b | n | | | | | |]|];
      simpl in Hv; unfold check_value in Hv; simpl in Hv; try discriminate Hv.
    - destruct b; simpl in Hv; [|discriminate Hv].
      injection Hv as <-. exists 1. split; [done|]. split; [lia|].
      intros k Hk. discriminate Hk.
    - unfold check_constraints, check_max_length, check_ge, check_le in Hv.
      simpl in Hv. destruct (1 <=? n)%Z eqn:Hn; [|discriminate Hv].
      injection Hv as <-. exists n. split; [done|]. split; [lia|].
      by intros k [= ->]. }
  destruct Hout as (n & -> & Hn & Hsame). split.
  - by exists n.
  - intros k Hk. by rewrite (Hsame k Hk).
Qed.

Lemma step_order_at_least_one_witness :
  (∃ n, align_step !! "step_order" = Some (VInt n) ∧ 1 <= n)
  ∧ (∀ n, align_kwargs !! "step_order" = Some (VInt n) ->
          align_step !! "step_order" = Some (VInt n)).
Proof.
  apply (step_order_at_least_one 0 align_kwargs align_step).
  unfold align_step. validated.
Defined.

(** ** Request shapes per entity *)

(** C3, as stated, fails: TransformationStep has neither a Create nor an
    Update shape. *)
Lemma shapes_not_for_every_entity :
  ¬ (∀ e, e ∈ entities ->
       (∃ c, Create_of e = Some c)
       ∧ (∃ u, Update_of e = Some u
               ∧ ∀ f, f ∈ fields e ->
                      ∃ g, g ∈ fields u ∧ fname g = fname f
                           ∧ optional g = true)).
Proof.
  intros H. destruct (H TransformationStep) as [[c Hc] _]; [in_list|].
  discriminate Hc.
Qed.

(** C3, amended.  The layer declares a Create shape for Glyph,
    TransformationProtocol, Mission, EmotionalResonance, QuantumShield and
    HealingModule, and an Update shape for Glyph, Mission and QuantumShield;
    TransformationStep and MissionLogEntry have neither.  Each field of a
    Create shape is a field of its entity with the same annotation and
    bounds, optional and required as in the entity; each field of an Update
    shape is a field of its entity with the same annotation and bounds,
    [Optional] with default [None]. *)
Theorem request_shapes_declared :
  create_shapes
  = [(Glyph, GlyphCreate);
     (TransformationProtocol, TransformationProtocolCreate);
     (Mission, MissionCreate);
     (EmotionalResonance, EmotionalResonanceCreate);
     (QuantumShield, QuantumShieldCreate);
     (HealingModule, HealingModuleCreate)]
  ∧ update_shapes
    = [(Glyph, GlyphUpdate); (Mission, MissionUpdate);
       (QuantumShield, QuantumShieldUpdate)]
  ∧ Forall (λ ec, mirrors ec.1 ec.2 = true) create_shapes
  ∧ Forall (λ eu, patches eu.1 eu.2 = true) update_shapes.
Proof.
  split; [reflexivity|]. split; [reflexivity|]. split.
  - repeat (apply Forall_cons; split); [..|by apply Forall_nil];
      vm_compute; reflexivity.
  - repeat (apply Forall_cons; split); [..|by apply Forall_nil];
      vm_compute; reflexivity.
Qed.

(** * Part V: further properties of the declarations *)

(** ** Defaults and validated instances *)

Lemma defaults_valid (m : Model) (f : FieldInfo) :
  m ∈ models -> f ∈ fields m -> default_valid f.
Proof.
  intros Hm Hf. unfold models, entities, schemas in Hm. simpl in Hm.
  each_member Hm; simpl in Hf; each_member Hf;
    first [exact I | reflexivity | vm_compute; reflexivity].
Qed.

Lemma same_constraints_refl (f : FieldInfo) : same_constraints f f = true.
Proof.
  unfold same_constraints. by rewrite !bool_decide_eq_true_2.
Qed.

Lemma datetime_field_accepts (f : FieldInfo) (t : Z) :
  annotation f = TDatetime ->
  check_value f (VDatetime t) = inr (VDatetime t).
Proof.
  intros Ht. unfold check_value. rewrite Ht. simpl.
  unfold check_constraints, check_max_length, check_ge, check_le.
  by destruct (max_length f), (ge f), (le f).
Qed.

(** What a field returns, it accepts and returns again. *)
Lemma validate_field_fixed (now now' : Z) (f : FieldInfo) (x : option value)
    (v : value) :
  default_valid f ->
  validate_field now f x = inr v ->
  validate_field now' f (Some v) = inr v.
Proof.
  intros Hdef Hv.
  assert (Hchk : ∀ v0, check_value f v0 = inr v ->
            validate_field now' f (Some v) = inr v).
  { intros v0 [Hw Hne]%(check_value_again f f);
      [|done|apply same_constraints_refl].
    destruct v; done. }
  destruct x as [v0|]; simpl in Hv.
  - destruct v0; try by eapply Hchk.
    destruct (optional f) eqn:Ho; [|by eapply Hchk].
    injection Hv as <-. simpl. by rewrite Ho.
  - unfold default_valid in Hdef. destruct (default f) as [|dv|].
    + done.
    + injection Hv as <-. exact Hdef.
    + injection Hv as <-. by apply datetime_field_accepts.
Qed.

(** Every attribute of a validated instance is one its field accepts. *)
Lemma validated_attribute (now now' : Z) (m : Model) (data row : attrs)
    (f : FieldInfo) :
  m ∈ models -> f ∈ fields m -> validate now m data = Ok row ->
  ∃ v, row !! fname f = Some v ∧ validate_field now' f (Some v) = inr v.
Proof.
  intros Hm Hf Hrow.
  destruct (validate_Ok_lookup now m data row f Hm Hf Hrow) as (v & Hv & Hlk).
  exists v. split; [done|].
  eapply validate_field_fixed; [by eapply defaults_valid | exact Hv].
Qed.

(** X1.  In every class, every declared default satisfies the constraints of
    its own field: given explicitly, it is accepted and stored unchanged. *)
Theorem declared_defaults_accepted (now : Z) (m : Model) (f : FieldInfo)
    (dv : value) :
  m ∈ models -> f ∈ fields m -> default f = Default dv ->
  validate_field now f (Some dv) = inr dv.
Proof.
  intros Hm Hf Hd. pose proof (defaults_valid m f Hm Hf) as Hv.
  unfold default_valid in Hv. rewrite Hd in Hv. exact Hv.
Qed.

Lemma declared_defaults_accepted_witness :
  validate_field 0 Glyph_power_level (Some (dec 10 (-1))) = inr (dec 10 (-1)).
Proof.
  apply (declared_defaults_accepted 0 Glyph Glyph_power_level).
  - in_list.
  - unfold Glyph_power_level. in_list.
  - reflexivity.
Defined.

(** X2.  Validation is a round trip: an instance that validation of a class
    has built, given back to that class as keyword arguments at any later
    time, validates and is built again unchanged. *)
Theorem validate_round_trip (now now' : Z) (m : Model) (data row : attrs) :
  m ∈ models -> validate now m data = Ok row ->
  validate now' m row = Ok row.
Proof.
  intros Hm Hrow.
  assert (Hall : Forall (accepted now' row) (fields m)).
  { apply Forall_forall. intros f Hf.
    destruct (validated_attribute now now' m data row f Hm Hf Hrow)
      as (v & Hlk & Hv).
    exists v. by rewrite Hlk. }
  rewrite (validate_accepts now' row m Hall). f_equal.
  apply map_eq. intros k.
  destruct (decide (k ∈ field_names m)) as [Hin|Hout].
  - apply list_elem_of_fmap in Hin as (f & -> & Hf).
    destruct (validated_attribute now now' m data row f Hm Hf Hrow)
      as (v & Hlk & Hv).
    rewrite Hlk. apply outputs_lookup;
      [by apply field_names_NoDup | done | by rewrite Hlk].
  - rewrite outputs_lookup_None by done.
    apply validate_Ok_inv in Hrow as [-> _].
    by rewrite outputs_lookup_None.
Qed.

Lemma validate_round_trip_witness :
  validate 9 Mission relic_mission = Ok relic_mission.
Proof.
  apply (validate_round_trip 0 9 Mission
           (outputs 0 MissionCreate mission_kwargs) relic_mission).
  - in_list.
  - unfold relic_mission. validated.
Defined.

(** ** What a validated instance holds *)

Lemma none_needs_optional (now : Z) (f : FieldInfo) :
  validate_field now f (Some VNone) = inr VNone -> optional f = true.
Proof.
  simpl. destruct (optional f); [done|]. unfold check_value.
  destruct (annotation f); simpl; try discriminate.
Qed.

Lemma percentage_fixed (now : Z) (f : FieldInfo) (v : value) :
  percentage_field f = true ->
  validate_field now f (Some v) = inr v ->
  v = VNone ∨ ∃ d, v = VDec d ∧ range_violations d = [].
Proof.
  intros Hp Hv. destruct (as_decimal v) as [d|] eqn:Hd.
  - rewrite (percentage_validate now f v d Hp Hd) in Hv.
    destruct (range_violations d) eqn:Hr; [|done].
    injection Hv as <-. right. by exists d.
  - apply percentage_field_inv in Hp as (Ht & _).
    destruct v; try discriminate Hd; [by left|..];
      simpl in Hv; unfold check_value in Hv; rewrite Ht in Hv; done.
Qed.

Lemma range_violations_nil (d : Decimal) :
  range_violations d = [] ->
  (0 <= Dec.value d)%Q ∧ (Dec.value d <= 100)%Q.
Proof.
  unfold range_violations.
  destruct (Dec.leb (Dec.of_int 0) d) eqn:Hlo; [|done].
  destruct (Dec.leb d (Dec.of_int 100)) eqn:Hhi; [|done]. intros _.
  apply DecFacts.leb_value in Hlo, Hhi.
  rewrite DecFacts.value_of_int in Hlo, Hhi. done.
Qed.

(** X3.  In every instance that validates, whatever the keyword arguments
    and including the defaults, each of the nine percentage attributes is a
    decimal between 0 and 100; in the Update shapes, where the field is
    Optional, it may also be [None]. *)
Theorem percentage_invariant (now : Z) (m : Model) (f : FieldInfo)
    (data row : attrs) :
  m ∈ models -> f ∈ fields m -> fname f ∈ bounded_decimal_fields ->
  validate now m data = Ok row ->
  (row !! fname f = Some VNone ∧ optional f = true)
  ∨ ∃ d, row !! fname f = Some (VDec d)
         ∧ (0 <= Dec.value d)%Q ∧ (Dec.value d <= 100)%Q.
Proof.
  intros Hm Hf Hn Hrow.
  destruct (validated_attribute now now m data row f Hm Hf Hrow)
    as (v & Hlk & Hv).
  pose proof (bounded_fields_declared m f Hm Hf Hn) as Hp.
  destruct (percentage_fixed now f v Hp Hv) as [->|(d & -> & Hr)].
  - left. split; [done|]. by eapply none_needs_optional.
  - right. exists d. split; [done|]. by apply range_violations_nil.
Qed.

Lemma percentage_invariant_witness :
  (relic_mission !! "progress_percentage" = Some VNone
   ∧ optional (field "progress_percentage" TDecimal |> default_ (dec 0 (-1))
                 |> with_ge 0 |> with_le 100) = true)
  ∨ ∃ d, relic_mission !! "progress_percentage" = Some (VDec d)
         ∧ (0 <= Dec.value d)%Q ∧ (Dec.value d <= 100)%Q.
Proof.
  apply (percentage_invariant 0 Mission
           (field "progress_percentage" TDecimal |> default_ (dec 0 (-1))
              |> with_ge 0 |> with_le 100)
           (outputs 0 MissionCreate mission_kwargs) relic_mission).
  - in_list.
  - in_list.
  - unfold bounded_decimal_fields. in_list.
  - unfold relic_mission. validated.
Defined.

(** X4.  In every instance that validates, including the defaults, each
    attribute whose field declares [max_length=n] is a string of at most
    [n] characters (code points), or [None] where the field is Optional. *)
Theorem max_length_invariant (now : Z) (m : Model) (f : FieldInfo) (n : nat)
    (data row : attrs) :
  m ∈ models -> f ∈ fields m -> max_length f = Some n ->
  validate now m data = Ok row ->
  (row !! fname f = Some VNone ∧ optional f = true)
  ∨ ∃ s, row !! fname f = Some (VStr s) ∧ (code_points s <= n)%nat.
Proof.
  intros Hm Hf Hn Hrow.
  destruct (validated_attribute now now m data row f Hm Hf Hrow)
    as (v & Hlk & Hv).
  pose proof (max_length_on_str m f n Hm Hf Hn) as Ht.
  destruct v as [| | | |s| | | |];
    try (simpl in Hv; unfold check_value in Hv; rewrite Ht in Hv;
         discriminate Hv).
  - left. split; [done|]. by eapply none_needs_optional.
  - right. exists s. split; [done|].
    rewrite (bounded_str_validate now f n s Ht Hn) in Hv.
    destruct (code_points s <=? n)%nat eqn:Hle; [|done].
    by apply Nat.leb_le.
Qed.

Lemma max_length_invariant_witness :
  (relic_mission !! "title" = Some VNone
   ∧ optional (field "title" TStr |> with_max_length 200) = true)
  ∨ ∃ s, relic_mission !! "title" = Some (VStr s)
         ∧ (code_points s <= 200)%nat.
Proof.
  apply (max_length_invariant 0 Mission
           (field "title" TStr |> with_max_length 200) 200
           (outputs 0 MissionCreate mission_kwargs) relic_mission).
  - in_list.
  - in_list.
  - reflexivity.
  - unfold relic_mission. validated.
Defined.

(** X5.  In every instance that validates, including the defaults, each
    attribute annotated with an enumeration holds the value of a declared
    member of that enumeration, or [None] where the field is Optional. *)
Theorem enum_invariant (now : Z) (m : Model) (f : FieldInfo) (e : EnumDecl)
    (data row : attrs) :
  m ∈ models -> f ∈ fields m -> annotation f = TEnum e ->
  validate now m data = Ok row ->
  (row !! fname f = Some VNone ∧ optional f = true)
  ∨ ∃ s, row !! fname f = Some (VStr s) ∧ s ∈ member_values e.
Proof.
  intros Hm Hf Ht Hrow.
  destruct (validated_attribute now now m data row f Hm Hf Hrow)
    as (v & Hlk & Hv).
  assert (Hcases : v = VNone ∨ check_value f v = inr v)
    by (destruct v; auto).
  destruct Hcases as [->|Hc].
  - left. split; [done|]. by eapply none_needs_optional.
  - right. unfold check_value in Hc. rewrite Ht in Hc.
    destruct (check_type (TEnum e) v) as [|w] eqn:Hw; [done|].
    apply enum_check_type in Hw as [-> (s & -> & Hs)]. by exists s.
Qed.

Lemma enum_invariant_witness :
  (relic_mission !! "status" = Some VNone ∧ optional Mission_status = true)
  ∨ ∃ s, relic_mission !! "status" = Some (VStr s)
         ∧ s ∈ member_values MissionStatus.
Proof.
  apply (enum_invariant 0 Mission Mission_status MissionStatus
           (outputs 0 MissionCreate mission_kwargs) relic_mission).
  - in_list.
  - unfold Mission_status. in_list.
  - reflexivity.
  - unfold relic_mission. validated.
Defined.

(** ** Required fields and defaults *)

Lemma check_type_None (t : pytype) : ∃ e, check_type t VNone = inl e.
Proof. destruct t; simpl; eauto. Qed.

Lemma required_is_not_optional (m : Model) (f : FieldInfo) :
  m ∈ models -> f ∈ fields m -> default f = Required -> optional f = false.
Proof.
  intros Hm Hf Hd.
  assert (Hall : forallb required_not_optional models = true)
    by (vm_compute; reflexivity).
  rewrite forallb_forall in Hall.
  apply list_elem_of_In, Hall in Hm. unfold required_not_optional in Hm.
  rewrite forallb_forall in Hm. apply list_elem_of_In, Hm in Hf.
  unfold has_default in Hf. rewrite Hd in Hf. by destruct (optional f).
Qed.

(** X6.  In every class, a field declared without a default is required:
    when the keyword argument is left out, validation fails with a
    ValidationError holding [missing] for that field, and whenever
    validation succeeds the argument was given and was not [None]. *)
Theorem required_field_supplied (now : Z) (m : Model) (f : FieldInfo)
    (data : attrs) :
  m ∈ models -> f ∈ fields m -> default f = Required ->
  (data !! fname f = None ->
     ∃ errs, validate now m data = Err (ValidationError errs)
             ∧ (fname f, missing) ∈ errs)
  ∧ (∀ row, validate now m data = Ok row ->
       ∃ v, data !! fname f = Some v ∧ v ≠ VNone).
Proof.
  intros Hm Hf Hd. split.
  - intros Hnone. eapply validate_rejects; [done| |left].
    rewrite Hnone. simpl. by rewrite Hd.
  - intros row Hrow.
    destruct (validate_Ok_lookup now m data row f Hm Hf Hrow) as (w & Hw & _).
    destruct (data !! fname f) as [v|]; simpl in Hw; [|by rewrite Hd in Hw].
    exists v. split; [done|]. intros ->. simpl in Hw.
    rewrite (required_is_not_optional m f Hm Hf Hd) in Hw.
    unfold check_value in Hw.
    destruct (check_type_None (annotation f)) as [e He].
    by rewrite He in Hw.
Qed.

Lemma required_field_supplied_witness :
  (delete "symbol" glyph_kwargs !! "symbol" = None ->
     ∃ errs, validate 0 Glyph (delete "symbol" glyph_kwargs)
             = Err (ValidationError errs)
             ∧ ("symbol", missing) ∈ errs)
  ∧ (∀ row, validate 0 Glyph (delete "symbol" glyph_kwargs) = Ok row ->
       ∃ v, delete "symbol" glyph_kwargs !! "symbol" = Some v ∧ v ≠ VNone).
Proof.
  apply (required_field_supplied 0 Glyph Glyph_symbol
           (delete "symbol" glyph_kwargs)).
  - in_list.
  - unfold Glyph_symbol. in_list.
  - reflexivity.
Defined.

Lemma mapM_as_decimal_item_decimals (m : list (string * value)) :
  forallb (λ kv, is_dec kv.2) m = true -> mapM as_decimal_item m = Some m.
Proof.
  intros Hm. apply mapM_Some.
  induction m as [|[k v] m IH]; [constructor|].
  simpl in Hm. apply andb_prop in Hm as [Hv Hm].
  constructor; [|by apply IH].
  by destruct v.
Qed.

Lemma check_type_of_annotated_type (t : pytype) (v : value) :
  of_annotated_type t v = true -> check_type t v = inr v.
Proof.
  destruct t, v; simpl; try discriminate; try reflexivity.
  - intros Hs. by rewrite Hs.
  - intros Hl. by rewrite Hl.
  - intros Hm. by rewrite (mapM_as_decimal_item_decimals m Hm).
Qed.

(** X7.  Defaults apply only to what is left out.  In an instance that
    validates, an attribute whose keyword argument was left out holds the
    declared default (the current time for [default_factory=utcnow]); an
    attribute that was given a value of its annotated type holds that
    value, and a Decimal attribute that was given an integer holds the
    decimal of that integer: neither holds the default in its place. *)
Theorem defaults_only_when_omitted (now : Z) (m : Model) (f : FieldInfo)
    (data row : attrs) :
  m ∈ models -> f ∈ fields m -> validate now m data = Ok row ->
  (data !! fname f = None ->
     (∀ dv, default f = Default dv -> row !! fname f = Some dv)
     ∧ (default f = DefaultFactoryUtcnow ->
        row !! fname f = Some (VDatetime now)))
  ∧ (∀ v, data !! fname f = Some v ->
       of_annotated_type (annotation f) v = true ->
       row !! fname f = Some v)
  ∧ (∀ n, annotation f = TDecimal -> data !! fname f = Some (VInt n) ->
       row !! fname f = Some (VDec (Dec.of_int n))).
Proof.
  intros Hm Hf Hrow.
  destruct (validate_Ok_lookup now m data row f Hm Hf Hrow) as (w & Hw & Hlk).
  split; [|split].
  - intros Hnone. rewrite Hnone in Hw. simpl in Hw. split.
    + intros dv Hd. rewrite Hd in Hw. by injection Hw as <-.
    + intros Hd. rewrite Hd in Hw. by injection Hw as <-.
  - intros v Hv Hty. rewrite Hv in Hw. rewrite Hlk. f_equal.
    assert (Hc : check_value f v = inr w).
    { destruct v; try exact Hw. by destruct (annotation f). }
    unfold check_value in Hc.
    rewrite (check_type_of_annotated_type _ _ Hty) in Hc.
    destruct (check_constraints f v); [|discriminate Hc].
    by injection Hc as <-.
  - intros n Ht Hv. rewrite Hv in Hw. rewrite Hlk. f_equal.
    simpl in Hw. unfold check_value in Hw. rewrite Ht in Hw. simpl in Hw.
    destruct (check_constraints f (VDec (Dec.of_int n))); [|discriminate Hw].
    by injection Hw as <-.
Qed.

Lemma defaults_only_when_omitted_witness :
  outputs 0 Glyph zero_power_kwargs !! "symbol" = Some (VStr "A")
  ∧ outputs 0 Glyph zero_power_kwargs !! "power_level"
    = Some (VDec (Dec.of_int 0)).
Proof.
  split.
  - destruct (defaults_only_when_omitted 0 Glyph Glyph_symbol
                zero_power_kwargs (outputs 0 Glyph zero_power_kwargs))
      as (_ & Hgiven & _).
    + in_list.
    + unfold Glyph_symbol. in_list.
    + validated.
    + apply (Hgiven (VStr "A")); reflexivity.
  - destruct (defaults_only_when_omitted 0 Glyph Glyph_power_level
                zero_power_kwargs (outputs 0 Glyph zero_power_kwargs))
      as (_ & _ & Hint).
    + in_list.
    + unfold Glyph_power_level. in_list.
    + validated.
    + apply (Hint 0); reflexivity.
Defined.

(** ** Lower bounds *)

Lemma lower_bounded_columns_declared :
  lower_bounded_columns
  = [("TransformationProtocol", "duration_minutes", 1);
     ("TransformationProtocol", "energy_cost", 0);
     ("TransformationStep", "step_order", 1);
     ("TransformationStep", "duration_seconds", 1);
     ("QuantumShield", "power_consumption", 0);
     ("QuantumShield", "protection_radius_km", 0);
     ("QuantumShield", "uptime_hours", 0);
     ("HealingModule", "healing_rate", 0);
     ("HealingModule", "total_healings", 0)].
Proof. reflexivity. Qed.

Lemma lower_bounded_decimal_validate (now : Z) (f : FieldInfo) (z : Z)
    (v : value) (d : Decimal) :
  annotation f = TDecimal -> ge f = Some z -> le f = None ->
  as_decimal v = Some d ->
  validate_field now f (Some v)
  = if Dec.leb (Dec.of_int z) d then inr (VDec d)
    else inl [greater_than_equal z].
Proof.
  intros Ht Hge Hle Hd.
  assert (Hc : check_value f v
    = if Dec.leb (Dec.of_int z) d then inr (VDec d)
      else inl [greater_than_equal z]).
  { unfold check_value. rewrite Ht. simpl. rewrite Hd.
    unfold check_constraints, check_max_length, check_ge, check_le.
    rewrite Hge, Hle. by destruct (max_length f), (Dec.leb (Dec.of_int z) d). }
  destruct v; simpl in Hd; try discriminate; exact Hc.
Qed.

(** X8.  In every class, a Decimal field that declares [ge=z] and no [le]
    (energy_cost, power_consumption, protection_radius_km, uptime_hours,
    healing_rate, all with [z = 0]) rejects every decimal below [z] with a
    ValidationError naming the field and the bound, and accepts every
    decimal from [z] upwards, however large. *)
Theorem decimal_lower_bound (now : Z) (m : Model) (f : FieldInfo) (z : Z)
    (data : attrs) (v : value) (d : Decimal) :
  m ∈ models -> f ∈ fields m ->
  annotation f = TDecimal -> ge f = Some z -> le f = None ->
  data !! fname f = Some v -> as_decimal v = Some d ->
  ((Dec.value d < inject_Z z)%Q ->
     ∃ errs, validate now m data = Err (ValidationError errs)
             ∧ (fname f, greater_than_equal z) ∈ errs)
  ∧ ((inject_Z z <= Dec.value d)%Q ->
     (∀ g, g ∈ fields m -> fname g ≠ fname f -> accepted now data g) ->
     ∃ row, validate now m data = Ok row
            ∧ row !! fname f = Some (VDec d)).
Proof.
  intros Hm Hf Ht Hge Hle Hv Hd.
  pose proof (lower_bounded_decimal_validate now f z v d Ht Hge Hle Hd)
    as Hval.
  split.
  - intros Hlt.
    assert (Dec.leb (Dec.of_int z) d = false) as Hb.
    { apply DecFacts.leb_false_value. by rewrite DecFacts.value_of_int. }
    rewrite Hb in Hval.
    eapply validate_rejects; [done | by rewrite Hv | left].
  - intros Hle' Hothers.
    assert (Dec.leb (Dec.of_int z) d = true) as Hb.
    { apply DecFacts.leb_value. by rewrite DecFacts.value_of_int. }
    rewrite Hb in Hval.
    apply validate_one_field; [done.. | by rewrite Hv | done].
Qed.

Lemma decimal_lower_bound_witness :
  (∃ errs,
     validate 0 TransformationProtocol (solar_cost_kwargs (dec (-5) (-1)))
     = Err (ValidationError errs)
     ∧ ("energy_cost", greater_than_equal 0) ∈ errs)
  ∧ (∃ row,
       validate 0 TransformationProtocol (solar_cost_kwargs (dec 25 4))
       = Ok row
       ∧ row !! "energy_cost" = Some (dec 25 4)).
Proof.
  split.
  - apply (decimal_lower_bound 0 TransformationProtocol
             TransformationProtocol_energy_cost 0
             (solar_cost_kwargs (dec (-5) (-1))) (dec (-5) (-1))
             (Dec.mk (-5) (-1))); try reflexivity.
    + in_list.
    + unfold TransformationProtocol_energy_cost. in_list.
  - apply (decimal_lower_bound 0 TransformationProtocol
             TransformationProtocol_energy_cost 0
             (solar_cost_kwargs (dec 25 4)) (dec 25 4) (Dec.mk 25 4));
      try reflexivity.
    + in_list.
    + unfold TransformationProtocol_energy_cost. in_list.
    + discriminate.
    + others_accepted.
Defined.

Lemma lower_bounded_int_validate (now : Z) (f : FieldInfo) (z n : Z) :
  annotation f = TInt -> ge f = Some z -> le f = None ->
  validate_field now f (Some (VInt n))
  = if (z <=? n)%Z then inr (VInt n) else inl [greater_than_equal z].
Proof.
  intros Ht Hge Hle. simpl. unfold check_value. rewrite Ht. simpl.
  unfold check_constraints, check_max_length, check_ge, check_le.
  rewrite Hge, Hle. by destruct (max_length f), (z <=? n)%Z.
Qed.

(** X9.  In every class, an int field that declares [ge=z] and no [le]
    (duration_minutes, duration_seconds and step_order with [z = 1],
    total_healings with [z = 0]) rejects every integer below [z] with a
    ValidationError naming the field and the bound, and accepts every
    integer from [z] upwards. *)
Theorem int_lower_bound (now : Z) (m : Model) (f : FieldInfo) (z n : Z)
    (data : attrs) :
  m ∈ models -> f ∈ fields m ->
  annotation f = TInt -> ge f = Some z -> le f = None ->
  data !! fname f = Some (VInt n) ->
  (n < z ->
     ∃ errs, validate now m data = Err (ValidationError errs)
             ∧ (fname f, greater_than_equal z) ∈ errs)
  ∧ (z <= n ->
     (∀ g, g ∈ fields m -> fname g ≠ fname f -> accepted now data g) ->
     ∃ row, validate now m data = Ok row
            ∧ row !! fname f = Some (VInt n)).
Proof.
  intros Hm Hf Ht Hge Hle Hv.
  pose proof (lower_bounded_int_validate now f z n Ht Hge Hle) as Hval.
  split.
  - intros Hlt. rewrite (proj2 (Z.leb_gt z n)) in Hval by lia.
    eapply validate_rejects; [done | by rewrite Hv | left].
  - intros Hle' Hothers. rewrite (proj2 (Z.leb_le z n)) in Hval by lia.
    apply validate_one_field; [done.. | by rewrite Hv | done].
Qed.

Lemma int_lower_bound_witness :
  (∃ errs,
     validate 0 TransformationProtocol
       (<["duration_minutes" := VInt 0]> solar_kwargs)
     = Err (ValidationError errs)
     ∧ ("duration_minutes", greater_than_equal 1) ∈ errs)
  ∧ (∃ row,
       validate 0 TransformationProtocol solar_kwargs = Ok row
       ∧ row !! "duration_minutes" = Some (VInt 30)).
Proof.
  split.
  - apply (int_lower_bound 0 TransformationProtocol
             TransformationProtocol_duration_minutes 1 0
             (<["duration_minutes" := VInt 0]> solar_kwargs));
      try reflexivity.
    + in_list.
    + unfold TransformationProtocol_duration_minutes. in_list.
  - apply (int_lower_bound 0 TransformationProtocol
             TransformationProtocol_duration_minutes 1 30 solar_kwargs);
      try reflexivity.
    + in_list.
    + unfold TransformationProtocol_duration_minutes. in_list.
    + lia.
    + others_accepted.
Defined.

(** ** Entities from Create shapes *)

Lemma create_shapes_list :
  create_shapes
  = [(Glyph, GlyphCreate);
     (TransformationProtocol, TransformationProtocolCreate);
     (Mission, MissionCreate);
     (EmotionalResonance, EmotionalResonanceCreate);
     (QuantumShield, QuantumShieldCreate);
     (HealingModule, HealingModuleCreate)].
Proof. reflexivity. Qed.

Lemma create_shape_facts (e c : Model) :
  (e, c) ∈ create_shapes ->
  e ∈ models ∧ c ∈ models
  ∧ constructible c e = true ∧ mirrors e c = true.
Proof.
  rewrite create_shapes_list. intros H.
  each_member H; injection H as -> ->;
    (split; [in_list | split; [in_list | split; vm_compute; reflexivity]]).
Qed.

(** A field with the annotation and bounds of another, and [Optional] when
    the other is, accepts what the other returned, unchanged. *)
Lemma same_field_fixed (now : Z) (g' g : FieldInfo) (v : value) :
  annotation g = annotation g' -> same_constraints g' g = true ->
  (optional g' = true -> optional g = true) ->
  validate_field now g' (Some v) = inr v ->
  validate_field now g (Some v) = inr v.
Proof.
  intros Ht Hc Hopt Hv.
  assert (Hsame : check_value g v = check_value g' v).
  { unfold check_value. rewrite Ht.
    destruct (check_type (annotation g') v) as [|w]; [done|].
    by rewrite (check_constraints_same g' g w Hc). }
  destruct v; try (simpl in *; by rewrite Hsame).
  apply none_needs_optional in Hv. simpl. by rewrite (Hopt Hv).
Qed.

(** X10.  For each entity with a Create shape (Glyph, TransformationProtocol,
    Mission, EmotionalResonance, QuantumShield, HealingModule): whenever
    the Create shape validates, the entity constructed from it validates
    too, holds every attribute of the shape unchanged, and holds its own
    declared default (the current time for the timestamps) for every
    attribute the shape does not have. *)
Theorem entity_from_create (now : Z) (e c : Model) (data d : attrs) :
  (e, c) ∈ create_shapes -> validate now c data = Ok d ->
  ∃ row, construct_from now c e data = Ok row
    ∧ (∀ k, k ∈ field_names c -> row !! k = d !! k)
    ∧ (∀ g, g ∈ fields e -> fname g ∉ field_names c ->
         (∀ dv, default g = Default dv -> row !! fname g = Some dv)
         ∧ (default g = DefaultFactoryUtcnow ->
            row !! fname g = Some (VDatetime now))).
Proof.
  intros (He & Hc & Hcons & Hmir)%create_shape_facts Hd.
  unfold construct_from. rewrite Hd.
  unfold constructible in Hcons. rewrite forallb_forall in Hcons.
  unfold mirrors in Hmir. rewrite forallb_forall in Hmir.
  assert (Hshared : ∀ g g', g ∈ fields e -> g' ∈ fields c ->
            fname g' = fname g -> annotation g = annotation g' ->
            same_constraints g' g = true ->
            (optional g' = true -> optional g = true) ->
            ∃ v, d !! fname g = Some v
                 ∧ validate_field now g (Some v) = inr v).
  { intros g g' Hg Hg' Hname Ht Hsc Hopt.
    destruct (validated_attribute now now c data d g' Hc Hg' Hd)
      as (v & Hlk & Hv).
    exists v. rewrite <- Hname. split; [done|].
    by apply (same_field_fixed now g' g). }
  assert (Hall : Forall (accepted now d) (fields e)).
  { apply Forall_forall. intros g Hg.
    pose proof (Hcons g (proj1 (list_elem_of_In _ _) Hg)) as Hcg.
    destruct (shape_field c g) as [g'|] eqn:Hsf.
    - apply shape_field_Some in Hsf as [Hin Hname].
      unfold compatible in Hcg.
      rewrite !andb_true_iff, bool_decide_eq_true in Hcg.
      destruct Hcg as [[[Ht Hsc] Hopt] _].
      destruct (Hshared g g' Hg Hin Hname Ht Hsc) as (v & Hlk & Hv).
      { intros Ho. by rewrite Ho in Hopt. }
      exists v. by rewrite Hlk.
    - apply shape_field_None in Hsf.
      pose proof Hd as [-> _]%validate_Ok_inv.
      unfold accepted. rewrite (outputs_lookup_None now data c _ Hsf). simpl.
      unfold has_default in Hcg. destruct (default g); [done|eauto..]. }
  exists (outputs now e d). split; [by apply validate_accepts|]. split.
  - intros k (g' & -> & Hg')%list_elem_of_fmap.
    pose proof (Hmir g' (proj1 (list_elem_of_In _ _) Hg')) as Hm.
    destruct (shape_field e g') as [g|] eqn:Hsf; [|done].
    apply shape_field_Some in Hsf as [Hg Hname].
    rewrite !andb_true_iff, !bool_decide_eq_true in Hm.
    destruct Hm as [[[Ht Hsc] Hopt] _].
    destruct (Hshared g g' Hg Hg' (eq_sym Hname) Ht Hsc) as (v & Hlk & Hv).
    { intros Ho. by rewrite Hopt. }
    rewrite <- Hname, Hlk.
    apply outputs_lookup; [by apply field_names_NoDup | done |].
    by rewrite Hlk.
  - intros g Hg Hout.
    pose proof Hd as [-> _]%validate_Ok_inv.
    split.
    + intros dv Hdv. apply outputs_lookup;
        [by apply field_names_NoDup | done |].
      rewrite (outputs_lookup_None now data c _ Hout). simpl. by rewrite Hdv.
    + intros Hdv. apply outputs_lookup;
        [by apply field_names_NoDup | done |].
      rewrite (outputs_lookup_None now data c _ Hout). simpl. by rewrite Hdv.
Qed.

Lemma entity_from_create_witness :
  ∃ row, construct_from 3 GlyphCreate Glyph glyph_kwargs = Ok row
    ∧ (∀ k, k ∈ field_names GlyphCreate ->
            row !! k = outputs 3 GlyphCreate glyph_kwargs !! k)
    ∧ (∀ g, g ∈ fields Glyph -> fname g ∉ field_names GlyphCreate ->
         (∀ dv, default g = Default dv -> row !! fname g = Some dv)
         ∧ (default g = DefaultFactoryUtcnow ->
            row !! fname g = Some (VDatetime 3))).
Proof.
  apply (entity_from_create 3 Glyph GlyphCreate glyph_kwargs
           (outputs 3 GlyphCreate glyph_kwargs)).
  - rewrite create_shapes_list. in_list.
  - validated.
Defined.

(** ** Update shapes that set nothing *)

(** X11.  For each Update shape (GlyphUpdate, MissionUpdate,
    QuantumShieldUpdate): keyword arguments that set none of its
    attributes always validate, and in every validated Update shape each
    attribute that was left out, or given as [None], is [None]. *)
Theorem update_shape_unset (now : Z) (e u : Model) (data : attrs) :
  (e, u) ∈ update_shapes ->
  ((∀ k, k ∈ field_names u -> unset data k) ->
     ∃ patch, validate now u data = Ok patch)
  ∧ (∀ patch k, validate now u data = Ok patch ->
       k ∈ field_names u -> unset data k -> patch !! k = Some VNone).
Proof.
  intros (Hu & Hall & _)%update_shape_facts.
  rewrite forallb_forall in Hall. split.
  - intros Hunset. exists (outputs now u data).
    apply validate_accepts, Forall_forall. intros f Hf. exists VNone.
    apply unset_field_output; [by apply Hall, list_elem_of_In|].
    apply Hunset. by apply list_elem_of_fmap_2.
  - intros patch k Hp (f & -> & Hf)%list_elem_of_fmap Hk.
    destruct (validate_Ok_lookup now u data patch f Hu Hf Hp)
      as (v & Hv & Hlk).
    rewrite unset_field_output in Hv;
      [|by apply Hall, list_elem_of_In | done].
    by injection Hv as <-.
Qed.

Lemma update_shape_unset_witness :
  ∃ patch, validate 0 MissionUpdate ∅ = Ok patch
           ∧ patch !! "status" = Some VNone.
Proof.
  destruct (update_shape_unset 0 Mission MissionUpdate ∅) as [Hvalid Hnone].
  - rewrite update_shapes_declared. in_list.
  - destruct Hvalid as [patch Hpatch].
    + intros k _. by left.
    + exists patch. split; [exact Hpatch|].
      apply (Hnone patch "status" Hpatch).
      * unfold field_names. simpl. in_list.
      * by left.
Defined.

(** ** The schema as a whole *)

#[local] Instance foreign_key_resolves_dec (f : FieldInfo) :
  Decision (foreign_key_resolves f).
Proof.
  unfold foreign_key_resolves. destruct (foreign_key f) as [[t c]|]; apply _.
Defined.

(** X12.  Every foreign key of every table refers to the primary key [id]
    of a table that is declared, with the type of the referring column;
    table names are not repeated, and each table has exactly one primary
    key column, [id]. *)
Theorem foreign_keys_resolve :
  Forall (λ e, Forall foreign_key_resolves (fields e)) entities
  ∧ NoDup (tablename <$> entities)
  ∧ Forall (λ e, is_Some (tablename e)
                 ∧ fname <$> filter (λ f, primary_key f = true) (fields e)
                   = ["id"]) entities.
Proof.
  split; [|split]; apply (bool_decide_unpack _); vm_compute; exact I.
Qed.

(** X13.  Every relationship has its other end: the target class declares
    the attribute named by [back_populates], pointing back with
    [back_populates] naming this attribute; one end of each pair is a list
    and the other is not; and each to-one end is backed by a foreign key
    column of its class to the table of the target, Optional exactly when
    the relationship is. *)
Theorem relationships_paired :
  Forall (λ m, relationships m = relationships_of m) entities
  ∧ Forall (λ r,
      Exists (λ r', other_end r r'
                    ∧ (cardinal r = ToMany <-> cardinal r' ≠ ToMany))
        relationship_decls
      ∧ (cardinal r ≠ ToMany -> backed_by_column r))
    relationship_decls.
Proof.
  split.
  - repeat (apply Forall_cons; split); [..|by apply Forall_nil];
      vm_compute; reflexivity.
  - apply (bool_decide_unpack _). vm_compute. exact I.
Qed.

(** ** Enumeration members *)

(** X14.  In each of the five enumerations no two members share a value
    or a name: looking a member up by its value gives its name, looking it
    up by its name gives its value; and a string is accepted by a field of
    that enumeration exactly when it is the value of a member. *)
Theorem enum_lookup_round_trip (e : EnumDecl) :
  e ∈ enums ->
  (∀ n v, (n, v) ∈ members e -> by_value e v = Some n ∧ by_name e n = Some v)
  ∧ (∀ s, is_Some (by_value e s)
          <-> check_type (TEnum e) (VStr s) = inr (VStr s)).
Proof.
  intros He. split.
  - intros n v Hin. unfold enums in He.
    each_member He; simpl in Hin; each_member Hin;
      injection Hin as -> ->; split; reflexivity.
  - intros s. simpl. unfold by_value. rewrite fmap_is_Some. split.
    + intros [[n v] Hf]. apply find_some in Hf as [Hin Heq].
      simpl in Heq. apply String.eqb_eq in Heq as ->.
      rewrite bool_decide_eq_true_2; [done|].
      unfold member_values. apply list_elem_of_fmap.
      exists (n, s). split; [done|]. by apply list_elem_of_In.
    + case_bool_decide as Hs; [|done]. intros _.
      unfold member_values in Hs.
      apply list_elem_of_fmap in Hs as ([n v] & -> & Hin). simpl.
      destruct (List.find (λ nv, String.eqb nv.2 v) (members e)) eqn:Hf;
        [by eexists|].
      apply list_elem_of_In in Hin.
      pose proof (find_none _ _ Hf (n, v) Hin) as Hne. simpl in Hne.
      by rewrite String.eqb_refl in Hne.
Qed.

Lemma enum_lookup_round_trip_witness :
  (∀ n v, (n, v) ∈ members MissionPriority ->
          by_value MissionPriority v = Some n
          ∧ by_name MissionPriority n = Some v)
  ∧ (∀ s, is_Some (by_value MissionPriority s)
          <-> check_type (TEnum MissionPriority) (VStr s) = inr (VStr s)).
Proof.
  apply (enum_lookup_round_trip MissionPriority). unfold enums. in_list.
Defined.

(** ** Update shapes and their entities *)

Lemma update_shape_patches (e u : Model) :
  (e, u) ∈ update_shapes -> patches e u = true.
Proof.
  rewrite update_shapes_declared. intros H.
  each_member H; injection H as -> ->; vm_compute; reflexivity.
Qed.

(** X15.  For each entity with an Update shape (Glyph, Mission,
    QuantumShield): every value other than [None] that a validated Update
    shape carries is one the entity's field of the same name accepts
    unchanged, since the two declare the same annotation and bounds. *)
Theorem update_values_fit_entity (now : Z) (e u : Model) (data patch : attrs)
    (k : string) (v : value) :
  (e, u) ∈ update_shapes -> validate now u data = Ok patch ->
  k ∈ field_names u -> patch !! k = Some v -> v ≠ VNone ->
  ∃ g, g ∈ fields e ∧ fname g = k
       ∧ validate_field now g (Some v) = inr v.
Proof.
  intros Heu Hp (f & -> & Hf)%list_elem_of_fmap Hk Hne.
  pose proof (update_shape_patches e u Heu) as Hpat.
  apply update_shape_facts in Heu as (Hu & _ & _).
  unfold patches in Hpat. rewrite forallb_forall in Hpat.
  pose proof (Hpat f (proj1 (list_elem_of_In _ _) Hf)) as Hpf.
  apply andb_true_iff in Hpf as [_ Hpf].
  destruct (shape_field e f) as [g|] eqn:Hsf; [|done].
  apply shape_field_Some in Hsf as [Hg Hname].
  apply andb_true_iff in Hpf as [Ht Hsc]. apply bool_decide_eq_true in Ht.
  destruct (validated_attribute now now u data patch f Hu Hf Hp)
    as (v' & Hlk & Hv).
  rewrite Hk in Hlk. injection Hlk as <-.
  exists g. split; [done|]. split; [done|].
  assert (Hsame : check_value g v = check_value f v).
  { unfold check_value. rewrite Ht.
    destruct (check_type (annotation f) v) as [|w]; [done|].
    by rewrite (check_constraints_same f g w Hsc). }
  destruct v; try done; simpl in *; by rewrite Hsame.
Qed.

Lemma update_values_fit_entity_witness :
  ∃ g, g ∈ fields Mission ∧ fname g = "status"
       ∧ validate_field 1 g (Some (VStr "completed"))
         = inr (VStr "completed").
Proof.
  apply (update_values_fit_entity 1 Mission MissionUpdate complete_kwargs
           complete_patch "status" (VStr "completed")).
  - rewrite update_shapes_declared. in_list.
  - unfold complete_patch. validated.
  - unfold field_names. simpl. in_list.
  - vm_compute. reflexivity.
  - discriminate.
Defined.

(** ** None *)

(** X16.  In every class, [None] given for a field is accepted exactly when
    the field is declared [Optional]: it is then stored as [None]
    (validation succeeds when the other fields are accepted); on any other
    field validation fails with a ValidationError holding an entry for that
    field. *)
Theorem none_only_where_optional (now : Z) (m : Model) (f : FieldInfo)
    (data : attrs) :
  m ∈ models -> f ∈ fields m -> data !! fname f = Some VNone ->
  (optional f = true ->
     (∀ g, g ∈ fields m -> fname g ≠ fname f -> accepted now data g) ->
     ∃ row, validate now m data = Ok row ∧ row !! fname f = Some VNone)
  ∧ (optional f = false ->
     ∃ errs e, validate now m data = Err (ValidationError errs)
               ∧ (fname f, e) ∈ errs).
Proof.
  intros Hm Hf Hv. split.
  - intros Ho Hothers. apply validate_one_field; [done..| |done].
    rewrite Hv. simpl. by rewrite Ho.
  - intros Ho. destruct (check_type_None (annotation f)) as [e He].
    destruct (validate_rejects now data m f [e] e) as (errs & ? & ?);
      [done | | left | by eauto].
    rewrite Hv. simpl. rewrite Ho. unfold check_value. by rewrite He.
Qed.

Lemma none_only_where_optional_witness :
  (∃ row,
     validate 0 Glyph (<["last_used" := VNone]> glyph_kwargs) = Ok row
     ∧ row !! "last_used" = Some VNone)
  ∧ (∃ errs e,
       validate 0 Glyph (<["symbol" := VNone]> glyph_kwargs)
       = Err (ValidationError errs)
       ∧ ("symbol", e) ∈ errs).
Proof.
  split.
  - apply (none_only_where_optional 0 Glyph
             (field "last_used" TDatetime |> Optional |> default_ VNone)
             (<["last_used" := VNone]> glyph_kwargs)).
    + in_list.
    + in_list.
    + reflexivity.
    + reflexivity.
    + others_accepted.
  - apply (none_only_where_optional 0 Glyph Glyph_symbol
             (<["symbol" := VNone]> glyph_kwargs)).
    + in_list.
    + unfold Glyph_symbol. in_list.
    + reflexivity.
    + reflexivity.
Defined.
